(** * errs: structured errors and their translation to HTTP responses

    A shallow embedding of the two translator files of package [errs]
    ([httperrors.go], and the older translator file that holds [HTTPErr],
    [HTTPError] and [RE]), with the statements that are checked against
    them.  Declarations the two files use but do not contain (the [Kind]
    enumeration, the [Error] struct and its methods) live in a sibling Go
    file; they are either taken as parameters (class [Decls]) or modelled
    from the written specification, and every such definition says so. *)

From Stdlib Require Import ZArith Lia.
From stdpp Require Import base option list strings gmap pretty.

Local Open Scope Z_scope.

(** ** Go runtime: results, strings *)

(** A Go call either returns or panics. *)
Inductive result (A : Type) : Type :=
| Ok (a : A)
| Panic (msg : string).
Arguments Ok {A} a.
Arguments Panic {A} msg.

(** Length of a string in bytes, as a Go [int]. *)
Definition len (s : string) : Z := Z.of_nat (String.length s).

(** [strings.Index(s, substr)]: byte index of the first occurrence of
    [substr] in [s], or -1 when there is none. *)
Fixpoint strings_Index (s substr : string) : Z :=
  if String.prefix substr s then 0
  else match s with
       | EmptyString => -1
       | String _ s' =>
           let i := strings_Index s' substr in
           if i <? 0 then -1 else i + 1
       end.

(** [String.drop n s]: [s] without its first [n] bytes. *)
Fixpoint string_drop (n : nat) (s : string) : string :=
  match n, s with
  | O, _ => s
  | S n', String _ s' => string_drop n' s'
  | S _, EmptyString => EmptyString
  end.

(** The slice expression [s[lo:]]: a run-time panic when [lo] is outside
    [0 .. len(s)]. *)
Definition slice_from (s : string) (lo : Z) : result string :=
  if (lo <? 0) || (len s <? lo)
  then Panic "slice bounds out of range"
  else Ok (string_drop (Z.to_nat lo) s).

(** The text of the run-time panic for a dereference of nil. *)
Definition nil_dereference : string :=
  "invalid memory address or nil pointer dereference".

(** The double quote, which the JSON text needs. *)
Definition dq : string := String (Ascii.ascii_of_nat 34) EmptyString.

(** ** Data model *)

(** Modelled from the spec: the [Kind] enumeration is declared in a file
    that is not among the sources.  Its constants are the fifteen keys of
    [statusCode] in [HTTPErrorResponse]; its zero value is [Other] (the
    comment above [statusCode] says so, and [statusCode[0]] relies on it). *)
Inductive Kind : Type :=
| Other | Unauthenticated | Unauthorized | Permission | Invalid | Exist
| NotExist | Private | BrokenLink | Validation | InvalidRequest | IO
| Internal | Database | Unanticipated.

#[global] Instance Kind_eq_dec : EqDecision Kind.
Proof. solve_decision. Defined.

Definition Kind_to_nat (k : Kind) : nat :=
  match k with
  | Other => 0 | Unauthenticated => 1 | Unauthorized => 2 | Permission => 3
  | Invalid => 4 | Exist => 5 | NotExist => 6 | Private => 7
  | BrokenLink => 8 | Validation => 9 | InvalidRequest => 10 | IO => 11
  | Internal => 12 | Database => 13 | Unanticipated => 14
  end%nat.

Definition Kind_of_nat (n : nat) : option Kind :=
  match n with
  | 0 => Some Other | 1 => Some Unauthenticated | 2 => Some Unauthorized
  | 3 => Some Permission | 4 => Some Invalid | 5 => Some Exist
  | 6 => Some NotExist | 7 => Some Private | 8 => Some BrokenLink
  | 9 => Some Validation | 10 => Some InvalidRequest | 11 => Some IO
  | 12 => Some Internal | 13 => Some Database | 14 => Some Unanticipated
  | _ => None
  end%nat.

#[global] Instance Kind_countable : Countable Kind :=
  inj_countable Kind_to_nat Kind_of_nat ltac:(by intros []).

(** [type Code string] and [type Parameter string] (the latter renamed:
    its Go name is a reserved word here). *)
Definition Code : Type := string.
Definition Parameter_ : Type := string.

(** Addresses of [Error] structs on the heap: a [*Error] is a [loc].
    Address 0 is the nil pointer: nothing is ever allocated there. *)
Definition loc : Type := N.

Definition nil_loc : loc := 0%N.

(** [type HTTPErr struct]; [E] is the interface type [error], tied below. *)
Record HTTPErr_ (E : Type) : Type := Build_HTTPErr {
  HTTPStatusCode : Z;
  HTTPErr_Kind : Kind;
  HTTPErr_Param : Parameter_;
  HTTPErr_Code : Code;
  HTTPErr_Err : E }.
Arguments Build_HTTPErr {E}.
Arguments HTTPStatusCode {E}.
Arguments HTTPErr_Kind {E}.
Arguments HTTPErr_Param {E}.
Arguments HTTPErr_Code {E}.
Arguments HTTPErr_Err {E}.

Scheme All for HTTPErr_.

(** A value of interface type [error], by dynamic type.  A non-nil
    [*HTTPErr] is modelled by its pointee: no function of the two files
    writes through a [*HTTPErr] it was handed; [HTTPErrNilPtr] is the nil
    [*HTTPErr] held in a non-nil interface.  [HTTPErrVal] is an [HTTPErr]
    stored in the interface by value; [errorString] stands for
    [errors.New] and [fmt.Errorf] results; [foreignError] is an error of
    any type declared elsewhere, with what its [Error] method does:
    return a text, or panic with a message. *)
Inductive error : Type :=
| nil_error
| errorString (msg : string)
| ErrorPtr (l : loc)
| HTTPErrPtr (h : HTTPErr_ error)
| HTTPErrVal (h : HTTPErr_ error)
| HTTPErrNilPtr
| foreignError (outcome : result string).

Abbreviation HTTPErr := (HTTPErr_ error).

#[global] Instance error_inhabited : Inhabited error := populate nil_error.

(** Modelled from the spec: [type Error struct], declared in a file that
    is not among the sources.  Kind, Param, Code, Err and StripError are
    the fields the two files read and write; [Error_Location] is the
    caller location the data model lists (function, file and line, kept
    as text). *)
Record Error : Type := Build_Error {
  Error_Kind : Kind;
  Error_Param : Parameter_;
  Error_Code : Code;
  Error_Err : error;
  StripError : bool;
  Error_Location : string }.

(** Modelled from the spec: method [isZero] of [*Error], declared with [Error]:
    the value is empty, none of classification, code, parameter and
    cause is set. *)
Definition isZero (e : Error) : bool :=
  bool_decide (Error_Kind e = Other)
  && bool_decide (Error_Param e = EmptyString)
  && bool_decide (Error_Code e = EmptyString)
  && match Error_Err e with nil_error => true | _ => false end.

(** The declarations the two files call without containing them. *)
Class Decls : Type := {
  (** [func (k Kind) String() string] *)
  Kind_String : Kind → string;
  (** [func (e *Error) Error() string], of the [*Error] at an address *)
  Error_Error : gmap loc Error → loc → string;
  (** the text [encoding/json] writes for a string value *)
  json_string : string → string;
  (** the import path of the package, declared in go.mod: the run time
      names it when a value method is called through a nil pointer *)
  import_path : string }.

(** ** The collaborators: response writer and logger *)

(** What an [http.ResponseWriter] has been told: the header map, the
    [WriteHeader] calls in order, the bytes written. *)
Record ResponseWriter : Type := Build_ResponseWriter {
  Header : gmap string string;
  WriteHeader_calls : list Z;
  Written : string }.

Inductive Level : Type := ErrorLevel.

Inductive Field : Type :=
| FStr (key val : string)
| FInt (key : string) (val : Z).

(** One zerolog event. *)
Record Event : Type := Build_Event {
  Event_Level : Level;
  Event_Fields : list Field;
  Event_Msg : string }.

Record State : Type := Build_State {
  heap : gmap loc Error;
  writer : ResponseWriter;
  logged : list Event }.

(** ** A state-and-panic monad for the Go functions *)

Definition M (A : Type) : Type := State → result (A * State).

#[global] Instance M_ret : MRet M := λ A a s, Ok (a, s).
#[global] Instance M_bind : MBind M := λ A B f m s,
  match m s with
  | Ok (a, s') => f a s'
  | Panic msg => Panic msg
  end.

Definition panic {A} (msg : string) : M A := λ _, Panic msg.

Definition set_Err (c : error) (e : Error) : Error :=
  Build_Error (Error_Kind e) (Error_Param e) (Error_Code e) c
    (StripError e) (Error_Location e).
Definition set_StripError (b : bool) (e : Error) : Error :=
  Build_Error (Error_Kind e) (Error_Param e) (Error_Code e) (Error_Err e)
    b (Error_Location e).
Definition set_Kind (k : Kind) (e : Error) : Error :=
  Build_Error k (Error_Param e) (Error_Code e) (Error_Err e)
    (StripError e) (Error_Location e).
Definition set_Param (p : Parameter_) (e : Error) : Error :=
  Build_Error (Error_Kind e) p (Error_Code e) (Error_Err e)
    (StripError e) (Error_Location e).
Definition set_Code (c : Code) (e : Error) : Error :=
  Build_Error (Error_Kind e) (Error_Param e) c (Error_Err e)
    (StripError e) (Error_Location e).

(** Dereference of a [*Error]: a panic where the address holds nothing,
    as the nil address does. *)
Definition load (l : loc) : M Error := λ s,
  match heap s !! l with
  | Some v => Ok (v, s)
  | None => Panic "invalid memory address or nil pointer dereference"
  end.

(** Assignment through a [*Error]. *)
Definition update (l : loc) (f : Error → Error) : M unit := λ s,
  match heap s !! l with
  | Some v => Ok (tt, Build_State (<[l := f v]> (heap s)) (writer s) (logged s))
  | None => Panic "invalid memory address or nil pointer dereference"
  end.

(** The address of the next variable: one that holds nothing yet, and
    never the nil address. *)
Definition new_loc (h : gmap loc Error) : loc := fresh ({[nil_loc]} ∪ dom h).

(** A new variable holding [v], and its address ([x := v; &x]). *)
Definition alloc (v : Error) : M loc := λ s,
  let l := new_loc (heap s) in
  Ok (l, Build_State (<[l := v]> (heap s)) (writer s) (logged s)).

(** [e.Error()] on a [*Error]. *)
Definition call_Error `{Decls} (l : loc) : M string := λ s,
  Ok (Error_Error (heap s) l, s).

(** [logger.Error(). ... .Msg(msg)]: one event at error level. *)
Definition log_Error (fields : list Field) (msg : string) : M unit := λ s,
  Ok (tt, Build_State (heap s) (writer s)
            (logged s ++ [Build_Event ErrorLevel fields msg])).

(** [w.Header().Set(key, val)] *)
Definition Header_Set (key val : string) : M unit := λ s,
  let w := writer s in
  Ok (tt, Build_State (heap s)
            (Build_ResponseWriter (<[key := val]> (Header w))
               (WriteHeader_calls w) (Written w))
            (logged s)).

(** [w.WriteHeader(code)] *)
Definition WriteHeader (code : Z) : M unit := λ s,
  let w := writer s in
  Ok (tt, Build_State (heap s)
            (Build_ResponseWriter (Header w) (WriteHeader_calls w ++ [code])
               (Written w))
            (logged s)).

(** The line feed [fmt.Fprintln] ends its output with. *)
Definition newline : string := String (Ascii.ascii_of_nat 10) EmptyString.

(** [fmt.Fprintln(w, text)] *)
Definition Fprintln (text : string) : M unit := λ s,
  let w := writer s in
  Ok (tt, Build_State (heap s)
            (Build_ResponseWriter (Header w) (WriteHeader_calls w)
               (Written w +:+ text +:+ newline))
            (logged s)).

(** ** The response body: [ErrResponse], [ServiceError], [json.Marshal] *)

Record ServiceError : Type := Build_ServiceError {
  ServiceError_Kind : string;
  ServiceError_Code : string;
  ServiceError_Param : string;
  ServiceError_Message : string }.

Record ErrResponse : Type := Build_ErrResponse {
  ErrResponse_Error : ServiceError }.

Definition is_empty (s : string) : bool :=
  match s with EmptyString => true | _ => false end.

(** One member of a JSON object under [omitempty]: nothing for the empty
    string. *)
Definition json_member `{Decls} (key val : string) : list string :=
  if is_empty val then []
  else [dq +:+ key +:+ dq +:+ ":" +:+ json_string val].

Fixpoint join_comma (l : list string) : string :=
  match l with
  | [] => EmptyString
  | [x] => x
  | x :: rest => x +:+ "," +:+ join_comma rest
  end.

(** [json.Marshal] of an [ErrResponse]: members in field order, each
    left out when empty, under the key [error]. *)
Definition json_Marshal `{Decls} (er : ErrResponse) : string :=
  let e := ErrResponse_Error er in
  "{" +:+ dq +:+ "error" +:+ dq +:+ ":{"
  +:+ join_comma (json_member "kind" (ServiceError_Kind e)
                  ++ json_member "code" (ServiceError_Code e)
                  ++ json_member "param" (ServiceError_Param e)
                  ++ json_member "message" (ServiceError_Message e))
  +:+ "}}".

(** [net/http] status constants. *)
Definition StatusBadRequest : Z := 400.
Definition StatusUnauthorized : Z := 401.
Definition StatusForbidden : Z := 403.
Definition StatusInternalServerError : Z := 500.

(** ** Method calls on interface values *)

Section Dispatch.
Context `{Decls}.

(** The text of the run-time panic for [HTTPErr.Error], a method with a
    value receiver, called through a nil [*HTTPErr]. *)
Definition nil_receiver : string :=
  "value method " +:+ import_path
  +:+ ".HTTPErr.Error called using nil *HTTPErr pointer".

(** [err.Error()] by dynamic type: the text returned, or the panic.  For
    an [HTTPErr] this is the method [HTTPErr.Error] of the older
    translator file: the empty string when its [Err] is nil, else
    [hse.Err.Error()].  It has a value receiver, so a call through a nil
    [*HTTPErr] panics before the body runs. *)
Fixpoint error_Error (h : gmap loc Error) (err : error) : result string :=
  match err with
  | nil_error => Panic nil_dereference
  | errorString msg => Ok msg
  | ErrorPtr l => Ok (Error_Error h l)
  | HTTPErrPtr hse | HTTPErrVal hse =>
      (* In case user forgets to add an error type to HTTPErr *)
      match hse with
      | Build_HTTPErr _ _ _ _ c =>
          match c with
          | nil_error => Ok EmptyString
          | _ => error_Error h c
          end
      end
  | HTTPErrNilPtr => Panic nil_receiver
  | foreignError outcome => outcome
  end.

(** [err.Error()] on a non-nil interface value. *)
Definition call_error_Error (err : error) : M string := λ s,
  match error_Error (heap s) err with
  | Ok text => Ok (text, s)
  | Panic msg => Panic msg
  end.

(** What [fmt] prints for an error under the verb [verb] ([%s], [%v]):
    the text of its [Error] method; [fmt] recovers a panic of that
    method, printing [<nil>] for a nil pointer receiver and a PANIC note
    with the message otherwise. *)
Definition fmt_error (verb : string) (h : gmap loc Error) (err : error)
    : string :=
  match error_Error h err with
  | Ok text => text
  | Panic msg =>
      match err with
      | HTTPErrNilPtr | nil_error => "<nil>"
      | _ => "%!" +:+ verb +:+ "(PANIC=Error method: " +:+ msg +:+ ")"
      end
  end.

End Dispatch.

(** ** httperrors.go *)

Module HTTPErrors.
Section WithDecls.
Context `{Decls}.

(** [statusCode] maps an error [Kind] to an HTTP status code. *)
Definition statusCode : gmap Kind Z :=
  list_to_map
    [(Unauthenticated, StatusUnauthorized);
     (Unauthorized, StatusForbidden);
     (Permission, StatusForbidden);
     (Other, StatusBadRequest);
     (Invalid, StatusBadRequest);
     (Exist, StatusBadRequest);
     (NotExist, StatusBadRequest);
     (Private, StatusBadRequest);
     (BrokenLink, StatusBadRequest);
     (Validation, StatusBadRequest);
     (InvalidRequest, StatusBadRequest);
     (IO, StatusInternalServerError);
     (Internal, StatusInternalServerError);
     (Database, StatusInternalServerError);
     (Unanticipated, StatusInternalServerError)].

(** The index expression [statusCode[k]]: the zero value for a key the
    map does not hold. *)
Definition statusCode_at (k : Kind) : Z := default 0 (statusCode !! k).

Definition sendError (errStr : string) (httpStatusCode : Z) : M unit :=
  (if is_empty errStr then mret tt
   else Header_Set "Content-Type" "application/json");;
  Header_Set "X-Content-Type-Options" "nosniff";;
  WriteHeader httpStatusCode;;
  (* Only write response body if there is an error string populated *)
  if is_empty errStr then mret tt else Fprintln errStr.

Definition StripStack (e : error) : M error :=
  match e with
  | ErrorPtr err =>
      (* get error string *)
      errStr ← call_Error err;
      (* get position where |: character lands in string *)
      let idx := strings_Index errStr "|:" in
      (* substring from after the |: character *)
      match slice_from errStr (idx + 3) with
      | Ok substring =>
          (* put substring back into error *)
          mret (errorString substring)
      | Panic msg => panic msg
      end
  | _ =>
      (* If it's not an *Error type, don't strip anything *)
      mret e
  end.

Definition HTTPErrorResponse (err : error) : M unit :=
  match err with
  | ErrorPtr e =>
      ev ← load e;
      let httpStatusCode := statusCode_at (Error_Kind ev) in
      if isZero ev then
        log_Error [FInt "HTTP Error StatusCode" httpStatusCode] EmptyString;;
        sendError EmptyString httpStatusCode
      else if decide (Error_Kind ev = Unauthenticated) then
        msg ← call_Error e;
        log_Error [FInt "HTTP Error StatusCode" StatusUnauthorized] msg;;
        sendError EmptyString httpStatusCode
      else if decide (Error_Kind ev = Unauthorized) then
        msg ← call_Error e;
        log_Error [FInt "HTTP Error StatusCode" StatusForbidden] msg;;
        sendError EmptyString httpStatusCode
      else
        (* Make a copy *)
        fullErr ← alloc ev;
        (* log the full embedded error before removing the error stack *)
        full ← load fullErr;
        errText ← call_Error fullErr;
        log_Error [FStr "error" errText;
                   FInt "HTTPStatusCode" httpStatusCode;
                   FStr "Kind" (Kind_String (Error_Kind full));
                   FStr "Parameter" (Error_Param full);
                   FStr "Code" (Error_Code full)]
          "Response Error Sent";;
        stripped ← StripStack (ErrorPtr fullErr);
        update fullErr (set_Err stripped);;
        update fullErr (set_StripError true);;
        update e (set_Err (ErrorPtr fullErr));;
        ev' ← load e;
        message ← call_Error e;
        let er := Build_ErrResponse
                    (Build_ServiceError (Kind_String (Error_Kind ev'))
                       (Error_Code ev') (Error_Param ev') message) in
        (* Marshal errResponse struct to JSON for the response body *)
        let errJSON := json_Marshal er in
        sendError errJSON httpStatusCode
  | nil_error =>
      let httpStatusCode := statusCode_at Other in
      log_Error [FInt "HTTP Error StatusCode" httpStatusCode]
        "nil error - no response body sent";;
      sendError EmptyString httpStatusCode
  | _ =>
      (* Any error types we don't specifically look out for default
         to serving a HTTP 500 *)
      let cd := StatusInternalServerError in
      let er := Build_ErrResponse
                  (Build_ServiceError (Kind_String Unanticipated)
                     "Unanticipated" EmptyString
                     "Unexpected error - contact support") in
      text ← call_error_Error err;
      log_Error [] ("Unknown Error - HTTP " +:+ pretty cd +:+ " - " +:+ text);;
      let errJSON := json_Marshal er in
      sendError errJSON cd
  end.

End WithDecls.
End HTTPErrors.

(** ** The older translator file: [HTTPErr], [HTTPError], [RE] *)

Module Part000.
Section WithDecls.
Context `{Decls}.

(** Status Returns an HTTP Status Code. *)
Definition Status (hse : HTTPErr) : Z := HTTPStatusCode hse.

(** ErrKind returns a string denoting the kind of error *)
Definition ErrKind (hse : HTTPErr) : string :=
  if decide (HTTPErr_Kind hse = Other) then EmptyString
  else Kind_String (HTTPErr_Kind hse).

Definition ErrParam (hse : HTTPErr) : string := HTTPErr_Param hse.

Definition ErrCode (hse : HTTPErr) : string := HTTPErr_Code hse.

(** StatusOnly determines if the only field populated is the HTTP Status
    Code *)
Definition StatusOnly (hse : HTTPErr) : bool :=
  negb (HTTPStatusCode hse =? 0)
  && bool_decide (HTTPErr_Kind hse = Other)
  && is_empty (HTTPErr_Param hse)
  && is_empty (HTTPErr_Code hse)
  && match HTTPErr_Err hse with nil_error => true | _ => false end.

(** SetErr creates an error type and adds it to the struct *)
Definition SetErr (s : string) (hse : HTTPErr) : HTTPErr :=
  Build_HTTPErr (HTTPStatusCode hse) (HTTPErr_Kind hse) (HTTPErr_Param hse)
    (HTTPErr_Code hse) (errorString s).

Definition sendError (error : string) (statusCode : Z) : M unit :=
  Header_Set "Content-Type" "application/json";;
  Header_Set "X-Content-Type-Options" "nosniff";;
  WriteHeader statusCode;;
  (* Only write response body if there is an error string populated *)
  if is_empty error then mret tt else Fprintln error.

(** Only a [*HTTPErr], nil or not, is an [hError]: [StatusOnly] has a
    pointer receiver, so an [HTTPErr] held by value lacks it.  Modelled from the
    spec: [*Error], whose methods are declared in the missing file, is
    the other capability set and has none of [Status], [ErrKind],
    [ErrParam], [ErrCode], [StatusOnly]; so it takes the default case. *)
Definition HTTPError (err : error) : M unit :=
  match err with
  | nil_error => mret tt
  | HTTPErrNilPtr =>
      (* e.StatusOnly() reads the fields of a nil receiver *)
      panic nil_dereference
  | HTTPErrPtr e =>
      (if StatusOnly e then
         log_Error [FInt "HTTP Error StatusCode" (Status e)] EmptyString
       else
         h ← (λ s, Ok (heap s, s));
         log_Error [] ("HTTP " +:+ pretty (Status e) +:+ " - "
                       +:+ fmt_error "s" h err));;
      if StatusOnly e then sendError EmptyString (Status e)
      else
        message ← call_error_Error err;
        let er := Build_ErrResponse
                    (Build_ServiceError (ErrKind e) (ErrCode e) (ErrParam e)
                       message) in
        (* Marshal errResponse struct to JSON for the response body *)
        let errJSON := json_Marshal er in
        sendError errJSON (Status e)
  | _ =>
      (* Any error types we don't specifically look out for default
         to serving a HTTP 500 *)
      let cd := StatusInternalServerError in
      let er := Build_ErrResponse
                  (Build_ServiceError (Kind_String Unanticipated)
                     "Unanticipated" EmptyString
                     "Unexpected error - contact support") in
      text ← call_error_Error err;
      log_Error [] ("Unknown Error - HTTP " +:+ pretty cd +:+ " - " +:+ text);;
      let errJSON := json_Marshal er in
      sendError errJSON cd
  end.

Definition StripStack (e : error) : M error :=
  match e with
  | ErrorPtr err =>
      (* get error string *)
      errStr ← call_Error err;
      (* get position where |: character lands in string *)
      let idx := strings_Index errStr "|:" in
      (* substring from after the |: character *)
      match slice_from errStr (idx + 3) with
      | Ok substring =>
          (* put substring back into error *)
          mret (errorString substring)
      | Panic msg => panic msg
      end
  | _ =>
      (* If it's not an *Error type, don't strip anything *)
      mret e
  end.

(** One element of [args ...interface{}], by dynamic type.  [AError]
    with [nil_error] is the nil interface value; [AOther] is a value of
    any further type, with the texts [%T] and [%v] print for it. *)
Inductive Arg : Type :=
| AInt (n : Z)
| AKind (k : Kind)
| AString (s : string)
| ACode (c : Code)
| AParameter (p : Parameter_)
| AError (e : error)
| AOther (type_text value_text : string).

(** [%v] of one argument. *)
Definition fmt_v (h : gmap loc Error) (arg : Arg) : string :=
  match arg with
  | AInt n => pretty n
  | AKind k => Kind_String k
  | AString s => s
  | ACode c => c
  | AParameter p => p
  | AError e => fmt_error "v" h e
  | AOther _ v => v
  end.

(** [%T] of one argument, for the dynamic types of the default case. *)
Definition fmt_T (arg : Arg) : string :=
  match arg with
  | AOther t _ => t
  | _ => "<nil>"
  end.

Fixpoint join_space (l : list string) : string :=
  match l with
  | [] => EmptyString
  | [x] => x
  | x :: rest => x +:+ " " +:+ join_space rest
  end.

Definition set_HTTPStatusCode (n : Z) (e : HTTPErr) : HTTPErr :=
  Build_HTTPErr n (HTTPErr_Kind e) (HTTPErr_Param e) (HTTPErr_Code e)
    (HTTPErr_Err e).
Definition set_HKind (k : Kind) (e : HTTPErr) : HTTPErr :=
  Build_HTTPErr (HTTPStatusCode e) k (HTTPErr_Param e) (HTTPErr_Code e)
    (HTTPErr_Err e).
Definition set_HParam (p : Parameter_) (e : HTTPErr) : HTTPErr :=
  Build_HTTPErr (HTTPStatusCode e) (HTTPErr_Kind e) p (HTTPErr_Code e)
    (HTTPErr_Err e).
Definition set_HCode (c : Code) (e : HTTPErr) : HTTPErr :=
  Build_HTTPErr (HTTPStatusCode e) (HTTPErr_Kind e) (HTTPErr_Param e) c
    (HTTPErr_Err e).
Definition set_HErr (c : error) (e : HTTPErr) : HTTPErr :=
  Build_HTTPErr (HTTPStatusCode e) (HTTPErr_Kind e) (HTTPErr_Param e)
    (HTTPErr_Code e) c.

(** The [for _, arg := range args] loop of [RE] over the arguments still
    to visit; [inl] is the error the default case returns at once.
    [file] and [line] are what [runtime.Caller(1)] reports, [args] the
    whole argument list, which the default case prints. *)
Fixpoint RE_loop (file : string) (line : Z) (args rest : list Arg)
    (e : HTTPErr) : M (error + HTTPErr) :=
  match rest with
  | [] => mret (inr e)
  | arg :: rest' =>
      match arg with
      | AInt n => RE_loop file line args rest' (set_HTTPStatusCode n e)
      | AKind k => RE_loop file line args rest' (set_HKind k e)
      | AString s => RE_loop file line args rest' (set_HCode s e)
      | ACode c => RE_loop file line args rest' (set_HCode c e)
      | AParameter p => RE_loop file line args rest' (set_HParam p e)
      | AError (ErrorPtr a) =>
          (* Make a copy *)
          v ← load a;
          fullErr ← alloc v;
          (* log the full embedded error before removing the error stack *)
          full ← load fullErr;
          errText ← call_Error fullErr;
          log_Error [FStr "error" errText;
                     FInt "HTTPStatusCode" (HTTPStatusCode e);
                     FStr "Kind" (Kind_String (Error_Kind full));
                     FStr "Parameter" (Error_Param full);
                     FStr "Code" (Error_Code full)]
            "Response Error (RE)";;
          stripped ← StripStack (ErrorPtr fullErr);
          update fullErr (set_Err stripped);;
          update fullErr (set_StripError true);;
          RE_loop file line args rest' (set_HErr (ErrorPtr fullErr) e)
      | AError nil_error | AOther _ _ =>
          h ← (λ s, Ok (heap s, s));
          log_Error []
            ("errors.E: bad call from " +:+ file +:+ ":" +:+ pretty line
             +:+ ": [" +:+ join_space (fmt_v h <$> args) +:+ "]");;
          mret (inl (errorString
                       ("unknown type " +:+ fmt_T arg +:+ ", value "
                        +:+ fmt_v h arg +:+ " in error call")))
      | AError err => RE_loop file line args rest' (set_HErr err e)
      end
  end.

(** The six assignments that follow the loop, on the pointee of [prev]
    and on [e]. *)
Definition suppress_Kind (pe : Error * HTTPErr) : Error * HTTPErr :=
  let '(prev, e) := pe in
  let prev := if decide (Error_Kind prev = HTTPErr_Kind e)
              then set_Kind Other prev else prev in
  (* If this error has Kind unset or Other, pull up the inner one. *)
  if decide (HTTPErr_Kind e = Other)
  then (set_Kind Other prev, set_HKind (Error_Kind prev) e)
  else (prev, e).

Definition suppress_Code (pe : Error * HTTPErr) : Error * HTTPErr :=
  let '(prev, e) := pe in
  let prev := if decide (Error_Code prev = HTTPErr_Code e)
              then set_Code EmptyString prev else prev in
  (* If this error has an empty Code, pull up the inner one. *)
  if is_empty (HTTPErr_Code e)
  then (set_Code EmptyString prev, set_HCode (Error_Code prev) e)
  else (prev, e).

Definition suppress_Param (pe : Error * HTTPErr) : Error * HTTPErr :=
  let '(prev, e) := pe in
  let prev := if decide (Error_Param prev = HTTPErr_Param e)
              then set_Param EmptyString prev else prev in
  if is_empty (HTTPErr_Param e)
  then (set_Param EmptyString prev, set_HParam (Error_Param prev) e)
  else (prev, e).

Definition RE (file : string) (line : Z) (args : list Arg) : M error :=
  match args with
  | [] => panic "call to errors.RE with no arguments"
  | _ =>
      r ← RE_loop file line args args
            (Build_HTTPErr 0 Other EmptyString EmptyString nil_error);
      match r with
      | inl err => mret err
      | inr e =>
          match HTTPErr_Err e with
          | ErrorPtr prev =>
              (* The previous error was also one of ours. Suppress
                 duplications *)
              pv ← load prev;
              let '(pv', e') :=
                suppress_Param (suppress_Code (suppress_Kind (pv, e))) in
              update prev (λ _, pv');;
              mret (HTTPErrPtr e')
          | _ => mret (HTTPErrPtr e)
          end
      end
  end.

End WithDecls.
End Part000.

(** ** The missing declarations, as the specification describes them

    Used to run the functions on concrete values. *)

Module SpecModel.

(** Modelled from the spec: [Kind.String], declared with [Kind]: each
    value renders to a stable human-readable name; the names of the
    constants are used. *)
Definition Kind_name (k : Kind) : string :=
  match k with
  | Other => "Other" | Unauthenticated => "Unauthenticated"
  | Unauthorized => "Unauthorized" | Permission => "Permission"
  | Invalid => "Invalid" | Exist => "Exist" | NotExist => "NotExist"
  | Private => "Private" | BrokenLink => "BrokenLink"
  | Validation => "Validation" | InvalidRequest => "InvalidRequest"
  | IO => "IO" | Internal => "Internal" | Database => "Database"
  | Unanticipated => "Unanticipated"
  end.

(** Modelled from the spec: the [Error] method of [*Error], declared with
    [Error]: caller location, classification name if not the default,
    code, parameter, then, if a cause is wrapped, the delimiter and one
    separator followed by the rendering of the cause (its own rendering
    for an [*Error], its message otherwise).  [fuel] bounds the length of
    the chain that is followed. *)
Fixpoint Render (fuel : nat) (h : gmap loc Error) (err : error) : string :=
  match fuel with
  | O => EmptyString
  | S fuel' =>
      match err with
      | nil_error => EmptyString
      | errorString msg => msg
      | ErrorPtr l =>
          match h !! l with
          | None => EmptyString
          | Some e =>
              Error_Location e
              +:+ (if decide (Error_Kind e = Other) then EmptyString
                   else Kind_name (Error_Kind e))
              +:+ Error_Code e
              +:+ Error_Param e
              +:+ match Error_Err e with
                  | nil_error => EmptyString
                  | c => "|: " +:+ Render fuel' h c
                  end
          end
      | HTTPErrPtr x | HTTPErrVal x => Render fuel' h (HTTPErr_Err x)
      | HTTPErrNilPtr => EmptyString
      | foreignError (Ok text) => text
      | foreignError (Panic _) => EmptyString
      end
  end.

(** The text [encoding/json] writes for a string none of whose
    characters needs an escape: the string between double quotes. *)
Definition json_quote (s : string) : string := dq +:+ s +:+ dq.

(** The import path is that of the repository. *)
Definition decls : Decls :=
  {| Kind_String := Kind_name;
     Error_Error := λ h l, Render 64 h (ErrorPtr l);
     json_string := json_quote;
     import_path := "github.com/gilcrest/errs" |}.

End SpecModel.

(** ** Vocabulary of the statements *)

(** Nothing allocated, nothing sent, nothing logged. *)
Definition initial : State :=
  Build_State ∅ (Build_ResponseWriter ∅ [] EmptyString) [].

(** The state [s] with something else on the heap. *)
Definition with_heap (h : gmap loc Error) (s : State) : State :=
  Build_State h (writer s) (logged s).

(** The headers of a response without a body, as [httperrors.go] sets
    them. *)
Definition nosniff (m : gmap string string) : gmap string string :=
  <["X-Content-Type-Options" := "nosniff"]> m.

(** The headers of a response with a JSON body. *)
Definition json_nosniff (m : gmap string string) : gmap string string :=
  <["X-Content-Type-Options" := "nosniff"]>
    (<["Content-Type" := "application/json"]> m).


(** The status the two authentication branches log. *)
Definition auth_status (k : Kind) : Z :=
  if decide (k = Unauthenticated) then StatusUnauthorized else StatusForbidden.

(** The copy [HTTPErrorResponse] and [RE] keep: cause replaced by the
    stripped text, flag set. *)
Definition stripped_copy (sub : string) (e : Error) : Error :=
  set_StripError true (set_Err (errorString sub) e).

(** The heap after the body branch of [HTTPErrorResponse]: the copy at a
    fresh address, and the struct at [l] pointing to it. *)
Definition heap_after_strip (h : gmap loc Error) (l : loc) (e : Error)
    (sub : string) : gmap loc Error :=
  <[l := set_Err (ErrorPtr (new_loc h)) e]>
    (<[new_loc h := stripped_copy sub e]> h).

(** Whether an interface value holds an [*Error]. *)
Definition is_ErrorPtr (e : error) : bool :=
  match e with ErrorPtr _ => true | _ => false end.

(** An argument of one of the types the switch of [RE] names. *)
Definition recognised (arg : Part000.Arg) : bool :=
  match arg with
  | Part000.AError nil_error | Part000.AOther _ _ => false
  | _ => true
  end.

(** The last argument for each destination field, [acc] when there is
    none: what the sentence "only the last one is recorded" asks for. *)
Fixpoint spec_last_int (acc : Z) (args : list Part000.Arg) : Z :=
  match args with
  | [] => acc
  | Part000.AInt n :: rest => spec_last_int n rest
  | _ :: rest => spec_last_int acc rest
  end.

Fixpoint spec_last_Kind (acc : Kind) (args : list Part000.Arg) : Kind :=
  match args with
  | [] => acc
  | Part000.AKind k :: rest => spec_last_Kind k rest
  | _ :: rest => spec_last_Kind acc rest
  end.

Fixpoint spec_last_Code (acc : Code) (args : list Part000.Arg) : Code :=
  match args with
  | [] => acc
  | Part000.AString c :: rest | Part000.ACode c :: rest =>
      spec_last_Code c rest
  | _ :: rest => spec_last_Code acc rest
  end.

Fixpoint spec_last_Param (acc : Parameter_) (args : list Part000.Arg)
    : Parameter_ :=
  match args with
  | [] => acc
  | Part000.AParameter p :: rest => spec_last_Param p rest
  | _ :: rest => spec_last_Param acc rest
  end.

Fixpoint spec_last_Err (acc : error) (args : list Part000.Arg) : error :=
  match args with
  | [] => acc
  | Part000.AError nil_error :: rest => spec_last_Err acc rest
  | Part000.AError e :: rest => spec_last_Err e rest
  | _ :: rest => spec_last_Err acc rest
  end.

(** The event [RE] logs for an [*Error] argument. *)
Definition RE_event `{Decls} (h : gmap loc Error) (l' : loc) (e : HTTPErr)
    (v : Error) : Event :=
  Build_Event ErrorLevel
    [FStr "error" (Error_Error h l');
     FInt "HTTPStatusCode" (HTTPStatusCode e);
     FStr "Kind" (Kind_String (Error_Kind v));
     FStr "Parameter" (Error_Param v);
     FStr "Code" (Error_Code v)]
    "Response Error (RE)".

(** The record every unrecognised error is answered with. *)
Definition unanticipated_response `{Decls} : ErrResponse :=
  Build_ErrResponse
    (Build_ServiceError (Kind_String Unanticipated) "Unanticipated"
       EmptyString "Unexpected error - contact support").

(** [&HTTPErr{}] *)
Definition zero_HTTPErr : HTTPErr :=
  Build_HTTPErr 0 Other EmptyString EmptyString nil_error.

(** The JSON text of an [ErrResponse] whose four fields are empty. *)
Definition empty_error_body : string :=
  "{" +:+ dq +:+ "error" +:+ dq +:+ ":{}}".

(** The three classifications answered without a body when nothing but
    the classification is set. *)
Definition bodiless (k : Kind) : bool :=
  match k with
  | Other | Unauthenticated | Unauthorized => true
  | _ => false
  end.

(** A state whose heap holds the one struct [e], at address 1. *)
Definition holding (e : Error) : State :=
  with_heap {[1%N := e]} initial.

(** Example structs for running the functions. *)
Definition only_Invalid : Error :=
  Build_Error Invalid EmptyString EmptyString nil_error false "svc.go:10".

Definition database_cause : Error :=
  Build_Error Database EmptyString EmptyString (errorString "boom") false
    "svc.go:10".

Definition validation_cause : Error :=
  Build_Error Validation EmptyString EmptyString (errorString "boom") false
    "svc.go:10".

(** The first argument of a type the switch of [RE] does not name. *)
Definition spec_first_unrecognised (args : list Part000.Arg)
    : option Part000.Arg :=
  List.find (λ a, negb (recognised a)) args.

(** How many arguments are an [*Error]. *)
Fixpoint count_ErrorPtr (args : list Part000.Arg) : nat :=
  match args with
  | [] => O
  | Part000.AError (ErrorPtr _) :: rest => S (count_ErrorPtr rest)
  | _ :: rest => count_ErrorPtr rest
  end.

(** The error [RE] returns for an argument of an unknown type. *)
Definition unknown_type_error `{Decls} (h : gmap loc Error)
    (bad : Part000.Arg) : error :=
  errorString ("unknown type " +:+ Part000.fmt_T bad +:+ ", value "
               +:+ Part000.fmt_v h bad +:+ " in error call").

(** The three suppression steps of [RE], in their order. *)
Definition suppress_all (pe : Error * HTTPErr) : Error * HTTPErr :=
  Part000.suppress_Param (Part000.suppress_Code (Part000.suppress_Kind pe)).


(** Arguments that set the status code, Kind, Code or Param only. *)
Definition setters_only (args : list Part000.Arg) : bool :=
  forallb (λ a, match a with
                | Part000.AInt _ | Part000.AKind _ | Part000.AString _
                | Part000.ACode _ | Part000.AParameter _ => true
                | _ => false
                end) args.

(** The cause [RE] leaves behind for an [*Error] argument whose struct
    is [v], when the value built records Kind [k], Param [pm] and Code
    [c] from the arguments and [StripStack] gave the text [sub]. *)
Definition suppressed_copy (k : Kind) (pm : Parameter_) (c : Code)
    (sub : string) (v : Error) : Error :=
  Build_Error
    (if decide (Error_Kind v = k ∨ k = Other) then Other else Error_Kind v)
    (if decide (Error_Param v = pm ∨ pm = EmptyString)
     then EmptyString else Error_Param v)
    (if decide (Error_Code v = c ∨ c = EmptyString)
     then EmptyString else Error_Code v)
    (errorString sub) true (Error_Location v).

(** ** The response-writing helper *)

Ltac run_monad :=
  cbv [mbind M_bind mret M_ret panic log_Error Header_Set WriteHeader Fprintln
       call_Error call_error_Error]; cbn [heap writer logged Header
       WriteHeader_calls Written].

Ltac run_heap :=
  cbv [load alloc update]; cbn [heap writer logged].

Lemma String_append_empty_r (s : string) : s +:+ EmptyString = s.
Proof.
  induction s as [|a s IH]; [done|].
  change (String a (s +:+ EmptyString) = String a s). by f_equal.
Qed.


(** [sendError] of [httperrors.go], in full. *)
Lemma sendError_spec (errStr : string) (code : Z) (s : State) :
  HTTPErrors.sendError errStr code s =
    Ok (tt, Build_State (heap s)
              (Build_ResponseWriter
                 ((if is_empty errStr then nosniff else json_nosniff)
                    (Header (writer s)))
                 (WriteHeader_calls (writer s) ++ [code])
                 (Written (writer s)
                  +:+ (if is_empty errStr then EmptyString
                       else errStr +:+ newline)))
              (logged s)).
Proof.
  unfold HTTPErrors.sendError. destruct errStr; cbn [is_empty]; run_monad.
  - by rewrite String_append_empty_r.
  - done.
Qed.

(** [sendError] of the older translator file, in full. *)
Lemma old_sendError_spec (errStr : string) (code : Z) (s : State) :
  Part000.sendError errStr code s =
    Ok (tt, Build_State (heap s)
              (Build_ResponseWriter
                 (json_nosniff (Header (writer s)))
                 (WriteHeader_calls (writer s) ++ [code])
                 (Written (writer s)
                  +:+ (if is_empty errStr then EmptyString
                       else errStr +:+ newline)))
              (logged s)).
Proof.
  unfold Part000.sendError. destruct errStr; cbn [is_empty]; run_monad.
  - by rewrite String_append_empty_r.
  - done.
Qed.

(** C7, as the code has it.  Each call of either [sendError] returns,
    sets [X-Content-Type-Options: nosniff], calls [WriteHeader] exactly
    once with the given status, and writes the text and a line feed only
    when the text is non-empty.  [sendError] of [httperrors.go] leaves
    the [Content-Type] entry as it found it when the text is empty and
    sets it to [application/json] otherwise; [sendError] of the older
    translator file sets it to [application/json] on every call. *)
Theorem sendError_contract (errStr : string) (code : Z) (s : State) :
  (∃ s', HTTPErrors.sendError errStr code s = Ok (tt, s')
     ∧ Header (writer s') !! "X-Content-Type-Options" = Some "nosniff"
     ∧ WriteHeader_calls (writer s') = WriteHeader_calls (writer s) ++ [code]
     ∧ Written (writer s') =
         Written (writer s)
         +:+ (if is_empty errStr then EmptyString else errStr +:+ newline)
     ∧ Header (writer s') !! "Content-Type" =
         (if is_empty errStr then Header (writer s) !! "Content-Type"
          else Some "application/json")
     ∧ heap s' = heap s ∧ logged s' = logged s)
  ∧ (∃ s', Part000.sendError errStr code s = Ok (tt, s')
     ∧ Header (writer s') !! "X-Content-Type-Options" = Some "nosniff"
     ∧ WriteHeader_calls (writer s') = WriteHeader_calls (writer s) ++ [code]
     ∧ Written (writer s') =
         Written (writer s)
         +:+ (if is_empty errStr then EmptyString else errStr +:+ newline)
     ∧ Header (writer s') !! "Content-Type" = Some "application/json"
     ∧ heap s' = heap s ∧ logged s' = logged s).
Proof.
  split; eexists; (split; [apply sendError_spec || apply old_sendError_spec|]);
    cbn [writer heap logged Header WriteHeader_calls Written];
    repeat split; try done.
  - destruct errStr; cbn [is_empty]; unfold nosniff, json_nosniff;
      by rewrite lookup_insert_eq.
  - destruct errStr; cbn [is_empty]; unfold nosniff, json_nosniff.
    + by rewrite lookup_insert_ne.
    + rewrite lookup_insert_ne by done. by rewrite lookup_insert_eq.
  - unfold json_nosniff. by rewrite lookup_insert_eq.
  - unfold json_nosniff. rewrite lookup_insert_ne by done.
    by rewrite lookup_insert_eq.
Qed.

(** C7 fails for the older translator file: called with the empty text
    on a writer that holds no header, its [sendError] writes no body and
    still sets [Content-Type: application/json]. *)
Lemma old_sendError_sets_content_type_without_body :
  ∃ s', Part000.sendError EmptyString 401 initial = Ok (tt, s')
        ∧ Written (writer s') = EmptyString
        ∧ Header (writer initial) !! "Content-Type" = None
        ∧ Header (writer s') !! "Content-Type" = Some "application/json".
Proof. eexists. split; [reflexivity|]. by vm_compute. Qed.

(** ** Strings: occurrences of a substring *)

Lemma append_cons (a : Ascii.ascii) (s t : string) :
  String a s +:+ t = String a (s +:+ t).
Proof. reflexivity. Qed.

Lemma prefix_iff (sub s : string) :
  String.prefix sub s = true ↔ ∃ post, s = sub +:+ post.
Proof.
  revert s. induction sub as [|a sub IH]; intros s.
  - split; [intros _; by exists s|by destruct s].
  - destruct s as [|b s]; simpl.
    + split; [done|]. intros [post Hp]. by rewrite append_cons in Hp.
    + destruct (Ascii.ascii_dec a b) as [->|Hab].
      * rewrite IH. split; intros [post Hp]; exists post.
        -- by rewrite append_cons, Hp.
        -- rewrite append_cons in Hp. by injection Hp.
      * split; [done|]. intros [post Hp]. rewrite append_cons in Hp.
        injection Hp as Hb _. by destruct Hab.
Qed.

Lemma strings_Index_lower (s sub : string) : -1 ≤ strings_Index s sub.
Proof.
  induction s as [|a s IH]; cbn [strings_Index].
  - destruct (String.prefix sub EmptyString); lia.
  - destruct (String.prefix sub (String a s)); [lia|].
    destruct (strings_Index s sub <? 0) eqn:E; [lia|].
    apply Z.ltb_ge in E. lia.
Qed.

(** [strings_Index] answers -1 exactly when the substring does not occur. *)
Lemma strings_Index_absent (s sub : string) :
  strings_Index s sub = -1 ↔ ∀ pre post, s ≠ pre +:+ sub +:+ post.
Proof.
  induction s as [|a s IH]; cbn [strings_Index].
  - destruct (String.prefix sub EmptyString) eqn:E.
    + split; [done|]. intros Hno. apply prefix_iff in E as [post E].
      by destruct (Hno EmptyString post).
    + split; [|done]. intros _ pre post Heq.
      assert (String.prefix sub EmptyString = true) as E'; [|congruence].
      apply prefix_iff. destruct pre; [by exists post|done].
  - destruct (String.prefix sub (String a s)) eqn:E.
    + split; [done|]. intros Hno. apply prefix_iff in E as [post E].
      by destruct (Hno EmptyString post).
    + pose proof (strings_Index_lower s sub) as Hlow.
      destruct (strings_Index s sub <? 0) eqn:Ei.
      * apply Z.ltb_lt in Ei. split; [|done]. intros _ pre post Heq.
        destruct pre as [|b pre].
        -- assert (String.prefix sub (String a s) = true) as E';
             [|congruence].
           apply prefix_iff. by exists post.
        -- rewrite append_cons in Heq. injection Heq as _ Heq.
           assert (strings_Index s sub = -1) as Hm by lia.
           by destruct (proj1 IH Hm pre post).
      * apply Z.ltb_ge in Ei. split; [lia|]. intros Hno.
        assert (strings_Index s sub = -1) as Hm; [|lia].
        apply (proj2 IH). intros pre post Heq.
        destruct (Hno (String a pre) post). by rewrite append_cons, Heq.
Qed.

(** ** Stripping the stack *)

Section StripStack.
Context `{Decls}.

(** [StripStack] on an [*Error] whose text has no delimiter: the index
    is -1, so the slice starts at byte 2. *)
Lemma StripStack_absent (l : loc) (s : State) :
  strings_Index (Error_Error (heap s) l) "|:" = -1 →
  HTTPErrors.StripStack (ErrorPtr l) s =
    (if len (Error_Error (heap s) l) <? 2
     then Panic "slice bounds out of range"
     else Ok (errorString (string_drop 2 (Error_Error (heap s) l)), s)).
Proof.
  intros Hidx. unfold HTTPErrors.StripStack. run_monad. rewrite Hidx.
  unfold slice_from. change (-1 + 3) with 2. simpl (2 <? 0).
  rewrite orb_false_l. by destruct (len _ <? 2).
Qed.

(** The two files hold the same [StripStack]. *)
Lemma StripStack_same (e : error) (s : State) :
  Part000.StripStack e s = HTTPErrors.StripStack e s.
Proof. reflexivity. Qed.

(** C1, on the code.  An error that is not an [*Error] comes back as it
    is.  For an [*Error] whose text does not contain the delimiter,
    [StripStack] panics when the text is shorter than two bytes, and
    otherwise answers the text without its first two bytes: in neither
    case the original message. *)
Theorem StripStack_without_delimiter (l : loc) (s : State) :
  (∀ pre post, Error_Error (heap s) l ≠ pre +:+ "|:" +:+ post) →
  let errStr := Error_Error (heap s) l in
  HTTPErrors.StripStack (ErrorPtr l) s =
    (if len errStr <? 2 then Panic "slice bounds out of range"
     else Ok (errorString (string_drop 2 errStr), s))
  ∧ Part000.StripStack (ErrorPtr l) s =
    (if len errStr <? 2 then Panic "slice bounds out of range"
     else Ok (errorString (string_drop 2 errStr), s))
  ∧ (0 < len errStr → string_drop 2 errStr ≠ errStr)
  ∧ (∀ e, (∀ l', e ≠ ErrorPtr l') →
       HTTPErrors.StripStack e s = Ok (e, s)
       ∧ Part000.StripStack e s = Ok (e, s)).
Proof.
  intros Hno errStr. apply strings_Index_absent in Hno.
  split; [by apply StripStack_absent|].
  split; [rewrite StripStack_same; by apply StripStack_absent|].
  split.
  - intros Hlen Heq. apply (f_equal String.length) in Heq.
    unfold len in Hlen. subst errStr.
    destruct (Error_Error (heap s) l) as [|a [|b t]]; simpl in *; lia.
  - intros e He. by destruct e; try (by destruct (He l0) || by destruct (He l)).
Qed.

End StripStack.

(** ** [HTTPErrorResponse] *)

Section HTTPErrorResponse.
Context `{Decls}.

Lemma statusCode_total (k : Kind) :
  HTTPErrors.statusCode_at k =
    match k with
    | Unauthenticated => 401
    | Unauthorized | Permission => 403
    | Other | Invalid | Exist | NotExist | Private | BrokenLink
    | Validation | InvalidRequest => 400
    | IO | Internal | Database | Unanticipated => 500
    end.
Proof. by destruct k. Qed.

Lemma json_Marshal_not_empty (er : ErrResponse) :
  is_empty (json_Marshal er) = false.
Proof. reflexivity. Qed.

Lemma HTTPErrorResponse_nil (s : State) :
  HTTPErrors.HTTPErrorResponse nil_error s =
    Ok (tt, Build_State (heap s)
              (Build_ResponseWriter (nosniff (Header (writer s)))
                 (WriteHeader_calls (writer s) ++ [400])
                 (Written (writer s)))
              (logged s
               ++ [Build_Event ErrorLevel [FInt "HTTP Error StatusCode" 400]
                     "nil error - no response body sent"])).
Proof.
  unfold HTTPErrors.HTTPErrorResponse. run_monad.
  rewrite sendError_spec. cbn [is_empty heap writer logged Header
    WriteHeader_calls Written]. by rewrite String_append_empty_r.
Qed.

Lemma HTTPErrorResponse_zero (l : loc) (e : Error) (s : State) :
  heap s !! l = Some e → isZero e = true →
  HTTPErrors.HTTPErrorResponse (ErrorPtr l) s =
    Ok (tt, Build_State (heap s)
              (Build_ResponseWriter (nosniff (Header (writer s)))
                 (WriteHeader_calls (writer s)
                  ++ [HTTPErrors.statusCode_at (Error_Kind e)])
                 (Written (writer s)))
              (logged s
               ++ [Build_Event ErrorLevel
                     [FInt "HTTP Error StatusCode"
                        (HTTPErrors.statusCode_at (Error_Kind e))]
                     EmptyString])).
Proof.
  intros Hl Hz. unfold HTTPErrors.HTTPErrorResponse, load. run_monad.
  rewrite Hl, Hz. rewrite sendError_spec. cbn [is_empty heap writer logged
    Header WriteHeader_calls Written]. by rewrite String_append_empty_r.
Qed.

Lemma HTTPErrorResponse_auth (l : loc) (e : Error) (s : State) :
  heap s !! l = Some e →
  Error_Kind e = Unauthenticated ∨ Error_Kind e = Unauthorized →
  HTTPErrors.HTTPErrorResponse (ErrorPtr l) s =
    Ok (tt, Build_State (heap s)
              (Build_ResponseWriter (nosniff (Header (writer s)))
                 (WriteHeader_calls (writer s)
                  ++ [auth_status (Error_Kind e)])
                 (Written (writer s)))
              (logged s
               ++ [Build_Event ErrorLevel
                     [FInt "HTTP Error StatusCode" (auth_status (Error_Kind e))]
                     (Error_Error (heap s) l)])).
Proof.
  intros Hl Hk. unfold HTTPErrors.HTTPErrorResponse, load. run_monad.
  rewrite Hl.
  assert (isZero e = false) as ->.
  { unfold isZero. by destruct Hk as [-> | ->]. }
  unfold auth_status.
  destruct Hk as [Hk | Hk]; rewrite !Hk; repeat case_decide; try done;
    rewrite sendError_spec; cbn [is_empty heap writer logged Header
      WriteHeader_calls Written]; by rewrite String_append_empty_r.
Qed.

End HTTPErrorResponse.

Section HTTPErrorResponseBody.
Context `{Decls}.

Lemma new_loc_fresh (h : gmap loc Error) : new_loc h ∉ dom h.
Proof.
  unfold new_loc. intros Hin.
  apply (is_fresh ({[nil_loc]} ∪ dom h)). apply elem_of_union. by right.
Qed.

Lemma new_loc_not_nil (h : gmap loc Error) : new_loc h ≠ nil_loc.
Proof.
  unfold new_loc. intros Heq.
  apply (is_fresh ({[nil_loc]} ∪ dom h)). rewrite Heq.
  apply elem_of_union. left. by apply elem_of_singleton.
Qed.

Lemma fresh_ne (h : gmap loc Error) (l : loc) (e : Error) :
  h !! l = Some e → new_loc h ≠ l.
Proof.
  intros Hl Heq. apply (new_loc_fresh h). rewrite Heq.
  apply elem_of_dom. by exists e.
Qed.

Lemma HTTPErrorResponse_body (l : loc) (e : Error) (s : State) (sub : string) :
  heap s !! l = Some e → isZero e = false →
  Error_Kind e ≠ Unauthenticated → Error_Kind e ≠ Unauthorized →
  let l' := new_loc (heap s) in
  let h1 := <[l' := e]> (heap s) in
  slice_from (Error_Error h1 l') (strings_Index (Error_Error h1 l') "|:" + 3)
    = Ok sub →
  let h2 := heap_after_strip (heap s) l e sub in
  let code := HTTPErrors.statusCode_at (Error_Kind e) in
  let body :=
    json_Marshal
      (Build_ErrResponse
         (Build_ServiceError (Kind_String (Error_Kind e)) (Error_Code e)
            (Error_Param e) (Error_Error h2 l))) in
  HTTPErrors.HTTPErrorResponse (ErrorPtr l) s =
    Ok (tt, Build_State h2
              (Build_ResponseWriter (json_nosniff (Header (writer s)))
                 (WriteHeader_calls (writer s) ++ [code])
                 (Written (writer s) +:+ body +:+ newline))
              (logged s
               ++ [Build_Event ErrorLevel
                     [FStr "error" (Error_Error h1 l');
                      FInt "HTTPStatusCode" code;
                      FStr "Kind" (Kind_String (Error_Kind e));
                      FStr "Parameter" (Error_Param e);
                      FStr "Code" (Error_Code e)]
                     "Response Error Sent"])).
Proof.
  intros Hl Hz Hk1 Hk2 l' h1 Hslice h2 code body.
  pose proof (fresh_ne _ _ _ Hl) as Hne. fold l' in Hne.
  unfold HTTPErrors.HTTPErrorResponse. run_monad. run_heap.
  rewrite Hl, Hz. repeat case_decide; try done.
  run_heap. fold l'. rewrite lookup_insert_eq.
  unfold HTTPErrors.StripStack. run_monad. fold h1. rewrite Hslice.
  run_heap. subst h1.
  repeat (cbn [heap writer logged];
          first [rewrite lookup_insert_eq | rewrite insert_insert_eq
                | rewrite lookup_insert_ne by done | rewrite Hl]).
  rewrite sendError_spec. rewrite json_Marshal_not_empty.
  cbn [heap writer logged Header WriteHeader_calls Written].
  reflexivity.
Qed.

Lemma HTTPErrorResponse_body_panic (l : loc) (e : Error) (s : State)
    (msg : string) :
  heap s !! l = Some e → isZero e = false →
  Error_Kind e ≠ Unauthenticated → Error_Kind e ≠ Unauthorized →
  let l' := new_loc (heap s) in
  let h1 := <[l' := e]> (heap s) in
  slice_from (Error_Error h1 l') (strings_Index (Error_Error h1 l') "|:" + 3)
    = Panic msg →
  HTTPErrors.HTTPErrorResponse (ErrorPtr l) s = Panic msg.
Proof.
  intros Hl Hz Hk1 Hk2 l' h1 Hslice.
  unfold HTTPErrors.HTTPErrorResponse. run_monad. run_heap.
  rewrite Hl, Hz. repeat case_decide; try done.
  run_heap. fold l'. rewrite lookup_insert_eq.
  unfold HTTPErrors.StripStack. run_monad. fold h1. by rewrite Hslice.
Qed.

End HTTPErrorResponseBody.

(** ** [RE]: the argument loop *)

Section RE.
Context `{Decls}.
Variables (file : string) (line : Z).

(** One turn of the loop on an [*Error] argument: copy, log, strip. *)
Lemma RE_loop_ErrorPtr (args rest : list Part000.Arg) (a : loc)
    (e : HTTPErr) (s : State) :
  Part000.RE_loop file line args (Part000.AError (ErrorPtr a) :: rest) e s =
    match heap s !! a with
    | None => Panic "invalid memory address or nil pointer dereference"
    | Some v =>
        let l' := new_loc (heap s) in
        let h1 := <[l' := v]> (heap s) in
        match slice_from (Error_Error h1 l')
                (strings_Index (Error_Error h1 l') "|:" + 3) with
        | Panic msg => Panic msg
        | Ok sub =>
            Part000.RE_loop file line args rest
              (Part000.set_HErr (ErrorPtr l') e)
              (Build_State (<[l' := stripped_copy sub v]> (heap s))
                 (writer s) (logged s ++ [RE_event h1 l' e v]))
        end
    end.
Proof.
  cbn [Part000.RE_loop]. run_monad. run_heap.
  destruct (heap s !! a) as [v|]; [|done].
  run_heap. rewrite lookup_insert_eq.
  unfold Part000.StripStack. run_monad.
  destruct (slice_from _ _) as [sub|msg]; [|done].
  repeat (run_heap;
          first [rewrite lookup_insert_eq | rewrite insert_insert_eq]).
  reflexivity.
Qed.

(** What the loop leaves behind: every struct that existed keeps its
    value, the writer is untouched, and a cause that is an [*Error] is
    either the one [e] came with or a copy the loop allocated. *)
Lemma RE_loop_frame (args rest : list Part000.Arg) :
  ∀ (e : HTTPErr) (s : State) (r : error + HTTPErr) (s' : State),
    Part000.RE_loop file line args rest e s = Ok (r, s') →
    (∀ l v, heap s !! l = Some v → heap s' !! l = Some v)
    ∧ writer s' = writer s
    ∧ (∀ e' p, r = inr e' → HTTPErr_Err e' = ErrorPtr p →
         HTTPErr_Err e = ErrorPtr p
         ∨ ((p ∉ dom (heap s)) ∧ (p ∈ dom (heap s')))).
Proof.
  induction rest as [|arg rest IH]; intros e s r s' Hrun.
  - cbn in Hrun. injection Hrun as <- <-.
    repeat split; try done. intros e' p He' Hp. injection He' as <-. by left.
  - destruct arg as [n|k|c|c|p|err|t v].
    1-5: cbn [Part000.RE_loop] in Hrun; apply IH in Hrun;
         destruct Hrun as (Hf & Hw & Hd); by repeat split.
    + destruct err as [|msg|a|h|h| |t].
      3: { rewrite RE_loop_ErrorPtr in Hrun.
           destruct (heap s !! a) as [v|] eqn:Ha; [|done].
           cbv zeta in Hrun.
           destruct (slice_from _ _) as [sub|msg]; [|done].
           apply IH in Hrun. cbn [heap writer logged] in Hrun.
           destruct Hrun as (Hf & Hw & Hd).
           assert (∀ l v0, heap s !! l = Some v0 → heap s' !! l = Some v0)
             as Hframe.
           { intros l v0 Hl. apply Hf. rewrite lookup_insert_ne; [done|].
             by apply (fresh_ne _ _ v0). }
           repeat split; [done|done|]. intros e' q He' Hq. right.
           destruct (Hd e' q He' Hq) as [Hc|[Hc1 Hc2]].
           - cbn in Hc. injection Hc as <-. split; [apply new_loc_fresh|].
             apply elem_of_dom. exists (stripped_copy sub v).
             apply Hf. by rewrite lookup_insert_eq.
           - split; [|done]. intros Hin. apply Hc1.
             rewrite dom_insert_L. apply elem_of_union. by right. }
      1: { cbn in Hrun. injection Hrun as <- <-. by repeat split. }
      all: cbn [Part000.RE_loop] in Hrun; apply IH in Hrun;
        destruct Hrun as (Hf & Hw & Hd);
        (repeat split; [done|done|]); intros e' q He' Hq;
        destruct (Hd e' q He' Hq) as [Hc|?]; [done|by right].
    + cbn in Hrun. injection Hrun as <- <-. by repeat split.
Qed.

(** The loop records the last argument of each destination field. *)
Lemma RE_loop_last (args rest : list Part000.Arg) :
  ∀ (e : HTTPErr) (s : State) (e' : HTTPErr) (s' : State) (acc : error),
    Part000.RE_loop file line args rest e s = Ok (inr e', s') →
    is_ErrorPtr acc = is_ErrorPtr (HTTPErr_Err e) →
    (is_ErrorPtr acc = false → acc = HTTPErr_Err e) →
    HTTPStatusCode e' = spec_last_int (HTTPStatusCode e) rest
    ∧ HTTPErr_Kind e' = spec_last_Kind (HTTPErr_Kind e) rest
    ∧ HTTPErr_Code e' = spec_last_Code (HTTPErr_Code e) rest
    ∧ HTTPErr_Param e' = spec_last_Param (HTTPErr_Param e) rest
    ∧ is_ErrorPtr (HTTPErr_Err e') = is_ErrorPtr (spec_last_Err acc rest)
    ∧ (is_ErrorPtr (HTTPErr_Err e') = false →
         HTTPErr_Err e' = spec_last_Err acc rest).
Proof.
  induction rest as [|arg rest IH]; intros e s e' s' acc Hrun Hacc Hacc'.
  - cbn in Hrun. injection Hrun as <- <-. cbn. repeat split; try done.
    intros Hp. symmetry. apply Hacc'. by rewrite Hacc.
  - destruct arg as [n|k|c|c|p|err|t v].
    1-5: cbn [Part000.RE_loop] in Hrun;
         by apply (IH _ _ _ _ acc) in Hrun.
    + destruct err as [|msg|a|h|h| |t].
      3: { rewrite RE_loop_ErrorPtr in Hrun.
           destruct (heap s !! a) as [v|] eqn:Ha; [|done].
           cbv zeta in Hrun.
           destruct (slice_from _ _) as [sub|msg]; [|done].
           by apply (IH _ _ _ _ (ErrorPtr a)) in Hrun. }
      1: { cbn in Hrun. by injection Hrun. }
      all: cbn [Part000.RE_loop] in Hrun;
        match type of Hrun with
        | context [Part000.set_HErr ?c _] =>
            by apply (IH _ _ _ _ c) in Hrun
        end.
    + cbn in Hrun. by injection Hrun.
Qed.

(** With arguments of recognised types the loop does not leave early. *)
Lemma RE_loop_recognised (args rest : list Part000.Arg) :
  ∀ (e : HTTPErr) (s : State) (r : error + HTTPErr) (s' : State),
    forallb recognised rest = true →
    Part000.RE_loop file line args rest e s = Ok (r, s') →
    ∃ e', r = inr e'.
Proof.
  induction rest as [|arg rest IH]; intros e s r s' Hrec Hrun.
  - cbn in Hrun. injection Hrun as <- <-. by eexists.
  - cbn [forallb] in Hrec. apply andb_prop in Hrec as [Ha Hrec].
    destruct arg as [n|k|c|c|p|err|t v]; try done.
    1-5: cbn [Part000.RE_loop] in Hrun; by apply IH in Hrun.
    destruct err as [|msg|a|h|h| |t]; try done.
    2: { rewrite RE_loop_ErrorPtr in Hrun.
         destruct (heap s !! a) as [v|] eqn:Hl; [|done].
         cbv zeta in Hrun.
         destruct (slice_from _ _) as [sub|msg]; [|done].
         by apply IH in Hrun. }
    all: cbn [Part000.RE_loop] in Hrun; by apply IH in Hrun.
Qed.

(** Without [*Error] arguments the loop returns, and touches nothing. *)
Lemma RE_loop_plain (args rest : list Part000.Arg) :
  ∀ (e : HTTPErr) (s : State),
    forallb recognised rest = true →
    forallb (λ a, match a with
                  | Part000.AError (ErrorPtr _) => false
                  | _ => true
                  end) rest = true →
    ∃ e', Part000.RE_loop file line args rest e s = Ok (inr e', s).
Proof.
  induction rest as [|arg rest IH]; intros e s Hrec Hplain.
  - by eexists.
  - cbn [forallb] in Hrec, Hplain.
    apply andb_prop in Hrec as [Ha Hrec].
    apply andb_prop in Hplain as [Hb Hplain].
    destruct arg as [n|k|c|c|p|err|t v]; try done;
      try (cbn [Part000.RE_loop]; by apply IH).
    destruct err as [|msg|a|h|h| |t]; try done;
      cbn [Part000.RE_loop]; by apply IH.
Qed.

(** The assignments after the loop, in closed form, field by field. *)
Lemma suppress_Kind_spec (prev : Error) (e : HTTPErr) :
  Part000.suppress_Kind (prev, e) =
    (set_Kind (if decide (Error_Kind prev = HTTPErr_Kind e
                          ∨ HTTPErr_Kind e = Other)
               then Other else Error_Kind prev) prev,
     Part000.set_HKind (if decide (HTTPErr_Kind e = Other)
                        then Error_Kind prev else HTTPErr_Kind e) e).
Proof.
  destruct prev as [pk pp pc pe pf pl], e as [st k p c err].
  unfold Part000.suppress_Kind, set_Kind, Part000.set_HKind. cbn.
  repeat case_decide; subst; try reflexivity; exfalso; intuition congruence.
Qed.

Lemma is_empty_true (s : string) : is_empty s = true ↔ s = EmptyString.
Proof. by destruct s. Qed.

Lemma suppress_Code_spec (prev : Error) (e : HTTPErr) :
  Part000.suppress_Code (prev, e) =
    (set_Code (if decide (Error_Code prev = HTTPErr_Code e
                          ∨ HTTPErr_Code e = EmptyString)
               then EmptyString else Error_Code prev) prev,
     Part000.set_HCode (if decide (HTTPErr_Code e = EmptyString)
                        then Error_Code prev else HTTPErr_Code e) e).
Proof.
  destruct prev as [pk pp pc pe pf pl], e as [st k p c err].
  unfold Part000.suppress_Code, set_Code, Part000.set_HCode. cbn.
  destruct c as [|c0 c]; cbn [is_empty];
    repeat case_decide; subst; try reflexivity; exfalso; intuition congruence.
Qed.

Lemma suppress_Param_spec (prev : Error) (e : HTTPErr) :
  Part000.suppress_Param (prev, e) =
    (set_Param (if decide (Error_Param prev = HTTPErr_Param e
                           ∨ HTTPErr_Param e = EmptyString)
                then EmptyString else Error_Param prev) prev,
     Part000.set_HParam (if decide (HTTPErr_Param e = EmptyString)
                         then Error_Param prev else HTTPErr_Param e) e).
Proof.
  destruct prev as [pk pp pc pe pf pl], e as [st k p c err].
  unfold Part000.suppress_Param, set_Param, Part000.set_HParam. cbn.
  destruct p as [|p0 p]; cbn [is_empty];
    repeat case_decide; subst; try reflexivity; exfalso; intuition congruence.
Qed.

Lemma suppress_spec (prev : Error) (e : HTTPErr) :
  Part000.suppress_Param
    (Part000.suppress_Code (Part000.suppress_Kind (prev, e))) =
  (Build_Error
     (if decide (Error_Kind prev = HTTPErr_Kind e ∨ HTTPErr_Kind e = Other)
      then Other else Error_Kind prev)
     (if decide (Error_Param prev = HTTPErr_Param e
                 ∨ HTTPErr_Param e = EmptyString)
      then EmptyString else Error_Param prev)
     (if decide (Error_Code prev = HTTPErr_Code e
                 ∨ HTTPErr_Code e = EmptyString)
      then EmptyString else Error_Code prev)
     (Error_Err prev) (StripError prev) (Error_Location prev),
   Build_HTTPErr (HTTPStatusCode e)
     (if decide (HTTPErr_Kind e = Other)
      then Error_Kind prev else HTTPErr_Kind e)
     (if decide (HTTPErr_Param e = EmptyString)
      then Error_Param prev else HTTPErr_Param e)
     (if decide (HTTPErr_Code e = EmptyString)
      then Error_Code prev else HTTPErr_Code e)
     (HTTPErr_Err e)).
Proof.
  rewrite suppress_Kind_spec, suppress_Code_spec, suppress_Param_spec.
  by destruct prev, e.
Qed.

(** [RE] in terms of its loop, when the cause the loop leaves is an
    [*Error]. *)
Lemma RE_after_loop (args : list Part000.Arg) (s s1 : State) (cur : HTTPErr)
    (p : loc) (prev : Error) :
  Part000.RE_loop file line args args
    (Build_HTTPErr 0 Other EmptyString EmptyString nil_error) s
    = Ok (inr cur, s1) →
  HTTPErr_Err cur = ErrorPtr p →
  heap s1 !! p = Some prev →
  Part000.RE file line args s =
    let pe := Part000.suppress_Param
                (Part000.suppress_Code (Part000.suppress_Kind (prev, cur))) in
    Ok (HTTPErrPtr pe.2, with_heap (<[p := pe.1]> (heap s1)) s1).
Proof.
  intros Hloop Hp Hprev. unfold Part000.RE.
  destruct args as [|a args]; [cbn in Hloop; by injection Hloop as <- _|].
  run_monad. rewrite Hloop. rewrite Hp. run_heap. rewrite Hprev.
  destruct (Part000.suppress_Param _) as [pv' e']. by rewrite Hprev.
Qed.

Lemma RE_after_loop_plain (args : list Part000.Arg) (s s1 : State)
    (cur : HTTPErr) :
  args ≠ [] →
  Part000.RE_loop file line args args
    (Build_HTTPErr 0 Other EmptyString EmptyString nil_error) s
    = Ok (inr cur, s1) →
  is_ErrorPtr (HTTPErr_Err cur) = false →
  Part000.RE file line args s = Ok (HTTPErrPtr cur, s1).
Proof.
  intros Hne Hloop Hp. unfold Part000.RE.
  destruct args as [|a args]; [done|].
  run_monad. rewrite Hloop. by destruct (HTTPErr_Err cur).
Qed.

(** The loop over a list in two parts. *)
Lemma RE_loop_app (args pre post : list Part000.Arg) :
  ∀ (e : HTTPErr) (s : State),
    Part000.RE_loop file line args (pre ++ post) e s =
      match Part000.RE_loop file line args pre e s with
      | Ok (inr e1, s1) => Part000.RE_loop file line args post e1 s1
      | other => other
      end.
Proof.
  induction pre as [|arg pre IH]; intros e s; [done|].
  rewrite <- app_comm_cons.
  destruct arg as [n|k|c|c|p|err|t v];
    try (cbn [Part000.RE_loop]; by apply IH); [|done].
  destruct err as [|msg|a|h|h| |t];
    try (cbn [Part000.RE_loop]; by apply IH); [done|].
  rewrite !RE_loop_ErrorPtr.
  destruct (heap s !! a) as [v|]; [|done]. cbv zeta.
  destruct (slice_from _ _) as [sub|msg]; [|done]. apply IH.
Qed.

Lemma RE_loop_setters (args post : list Part000.Arg) :
  setters_only post = true →
  ∀ (e : HTTPErr) (s : State),
    ∃ e', Part000.RE_loop file line args post e s = Ok (inr e', s)
          ∧ HTTPErr_Err e' = HTTPErr_Err e.
Proof.
  unfold setters_only.
  induction post as [|arg post IH]; intros Hset e s; [by eexists|].
  cbn [forallb] in Hset. apply andb_prop in Hset as [Ha Hset].
  destruct arg as [n|k|c|c|p|err|t v]; try done;
    cbn [Part000.RE_loop];
    match goal with
    | |- context [Part000.RE_loop _ _ _ _ ?e1 _] =>
        destruct (IH Hset e1 s) as (e' & Hrun & He'); by exists e'
    end.
Qed.

Lemma split_last_error (rest : list Part000.Arg) :
  forallb recognised rest = true →
  setters_only rest = true
  ∨ ∃ pre c post,
      rest = pre ++ Part000.AError c :: post
      ∧ c ≠ nil_error ∧ setters_only post = true.
Proof.
  unfold setters_only.
  induction rest as [|arg rest IH]; intros Hrec; [by left|].
  cbn [forallb] in Hrec. apply andb_prop in Hrec as [Ha Hrec].
  destruct (IH Hrec) as [Hset|(pre & c & post & -> & Hc & Hpost)].
  - destruct arg as [n|k|c|c|p|err|t v]; try done;
      try (left; cbn [forallb]; by rewrite Hset).
    right. exists [], err, rest. repeat split; try done.
    by intros ->.
  - right. by exists (arg :: pre), c, post.
Qed.

Lemma spec_last_Err_setters (post : list Part000.Arg) :
  setters_only post = true → ∀ acc, spec_last_Err acc post = acc.
Proof.
  unfold setters_only.
  induction post as [|arg post IH]; intros Hset acc; [done|].
  cbn [forallb] in Hset. apply andb_prop in Hset as [Ha Hset].
  destruct arg; try done; cbn [spec_last_Err]; by apply IH.
Qed.

Lemma spec_last_Err_split (pre post : list Part000.Arg) (c : error) :
  c ≠ nil_error → setters_only post = true →
  ∀ acc, spec_last_Err acc (pre ++ Part000.AError c :: post) = c.
Proof.
  intros Hc Hpost. induction pre as [|arg pre IH]; intros acc.
  - cbn [app spec_last_Err]. destruct c; try done;
      by apply spec_last_Err_setters.
  - rewrite <- app_comm_cons.
    destruct arg as [n|k|c0|c0|p|err|t v]; cbn [spec_last_Err]; try apply IH.
    destruct err; apply IH.
Qed.

Lemma RE_loop_returns_recognised (args rest : list Part000.Arg)
    (e : HTTPErr) (s : State) (e' : HTTPErr) (s' : State) :
  Part000.RE_loop file line args rest e s = Ok (inr e', s') →
  forallb recognised rest = true.
Proof.
  revert e s. induction rest as [|arg rest IH]; intros e s Hrun; [done|].
  cbn [forallb].
  destruct arg as [n|k|c|c|p|err|t v];
    try (cbn [Part000.RE_loop] in Hrun; by apply IH in Hrun).
  - destruct err as [|msg|a|h|h| |t];
      try (cbn [Part000.RE_loop] in Hrun; by apply IH in Hrun).
    + cbn in Hrun. by injection Hrun.
    + rewrite RE_loop_ErrorPtr in Hrun.
      destruct (heap s !! a) as [v|]; [|done]. cbv zeta in Hrun.
      destruct (slice_from _ _) as [sub|msg]; [|done].
      by apply IH in Hrun.
  - cbn in Hrun. by injection Hrun.
Qed.

(** Where the [*Error] cause of the loop's value comes from: the last
    error argument, copied in the heap the loop had reached by then. *)
Lemma RE_loop_cause_exact (args rest : list Part000.Arg) (e : HTTPErr)
    (s : State) (e' : HTTPErr) (s' : State) (p : loc) :
  Part000.RE_loop file line args rest e s = Ok (inr e', s') →
  HTTPErr_Err e' = ErrorPtr p →
  is_ErrorPtr (HTTPErr_Err e) = false →
  ∃ pre a post e0 s0 v sub,
    rest = pre ++ Part000.AError (ErrorPtr a) :: post
    ∧ setters_only post = true
    ∧ Part000.RE_loop file line args pre e s = Ok (inr e0, s0)
    ∧ heap s0 !! a = Some v
    ∧ p = new_loc (heap s0)
    ∧ slice_from (Error_Error (<[p := v]> (heap s0)) p)
        (strings_Index (Error_Error (<[p := v]> (heap s0)) p) "|:" + 3)
      = Ok sub
    ∧ s' = Build_State (<[p := stripped_copy sub v]> (heap s0)) (writer s0)
             (logged s0 ++ [RE_event (<[p := v]> (heap s0)) p e0 v]).
Proof.
  intros Hrun Hp He.
  pose proof (RE_loop_returns_recognised _ _ _ _ _ _ Hrun) as Hrec.
  destruct (split_last_error rest Hrec)
    as [Hset|(pre & c & post & -> & Hc & Hpost)].
  - destruct (RE_loop_setters args rest Hset e s) as (e'' & Hrun' & He'').
    rewrite Hrun' in Hrun. injection Hrun as <- <-.
    rewrite He'' in Hp. by rewrite Hp in He.
  - rewrite RE_loop_app in Hrun.
    destruct (Part000.RE_loop file line args pre e s)
      as [[[err|e0] s0]|msg] eqn:Hpre; [done| |done].
    destruct c as [|m|a|h|h| |t]; [done| | | | | |].
    2: { rewrite RE_loop_ErrorPtr in Hrun.
         destruct (heap s0 !! a) as [v|] eqn:Ha; [|done]. cbv zeta in Hrun.
         destruct (slice_from _ _) as [sub|msg] eqn:Hslice; [|done].
         match type of Hrun with
         | Part000.RE_loop _ _ _ _ ?e1 ?s1 = _ =>
             destruct (RE_loop_setters args post Hpost e1 s1)
               as (e'' & Hrun' & He'')
         end.
         rewrite Hrun' in Hrun. injection Hrun as <- <-.
         rewrite He'' in Hp. cbn in Hp. injection Hp as <-.
         by exists pre, a, post, e0, s0, v, sub. }
    all: cbn [Part000.RE_loop] in Hrun;
      match type of Hrun with
      | Part000.RE_loop _ _ _ _ ?e1 ?s1 = _ =>
          destruct (RE_loop_setters args post Hpost e1 s1)
            as (e'' & Hrun' & He'')
      end;
      rewrite Hrun' in Hrun; injection Hrun as <- <-;
      rewrite He'' in Hp; by cbn in Hp.
Qed.

(** [RE] in closed form, when the loop leaves an [*Error] cause: the
    last error argument is an [*Error], and the value and the heap are
    those of the copy made when the loop reached it. *)
Lemma RE_of_loop_cause (args : list Part000.Arg) (s s1 : State)
    (cur : HTTPErr) (p : loc) :
  Part000.RE_loop file line args args zero_HTTPErr s = Ok (inr cur, s1) →
  HTTPErr_Err cur = ErrorPtr p →
  ∃ pre a post e0 s0 v sub,
    args = pre ++ Part000.AError (ErrorPtr a) :: post
    ∧ setters_only post = true
    ∧ Part000.RE_loop file line args pre zero_HTTPErr s = Ok (inr e0, s0)
    ∧ heap s0 !! a = Some v
    ∧ p = new_loc (heap s0)
    ∧ slice_from (Error_Error (<[p := v]> (heap s0)) p)
        (strings_Index (Error_Error (<[p := v]> (heap s0)) p) "|:" + 3)
      = Ok sub
    ∧ s1 = Build_State (<[p := stripped_copy sub v]> (heap s0)) (writer s0)
             (logged s0 ++ [RE_event (<[p := v]> (heap s0)) p e0 v])
    ∧ Part000.RE file line args s =
        Ok (HTTPErrPtr
              (Build_HTTPErr (spec_last_int 0 args)
                 (if decide (spec_last_Kind Other args = Other)
                  then Error_Kind v else spec_last_Kind Other args)
                 (if decide (spec_last_Param EmptyString args = EmptyString)
                  then Error_Param v else spec_last_Param EmptyString args)
                 (if decide (spec_last_Code EmptyString args = EmptyString)
                  then Error_Code v else spec_last_Code EmptyString args)
                 (ErrorPtr p)),
            Build_State
              (<[p := suppressed_copy (spec_last_Kind Other args)
                        (spec_last_Param EmptyString args)
                        (spec_last_Code EmptyString args) sub v]> (heap s0))
              (writer s0)
              (logged s0 ++ [RE_event (<[p := v]> (heap s0)) p e0 v])).
Proof.
  intros Hloop Hp.
  destruct (RE_loop_cause_exact _ _ _ _ _ _ _ Hloop Hp eq_refl)
    as (pre & a & post & e0 & s0 & v & sub & Hargs & Hpost & Hpre & Ha & Hnew
        & Hslice & Hs1).
  exists pre, a, post, e0, s0, v, sub.
  do 7 (split; [assumption|]).
  destruct (RE_loop_last _ _ _ _ _ _ nil_error Hloop eq_refl (λ _, eq_refl))
    as (Hst & Hk & Hc & Hpm & _).
  cbn [zero_HTTPErr HTTPStatusCode HTTPErr_Kind HTTPErr_Code HTTPErr_Param]
    in Hst, Hk, Hc, Hpm.
  assert (heap s1 !! p = Some (stripped_copy sub v)) as Hprev.
  { rewrite Hs1. cbn [heap]. apply lookup_insert_eq. }
  rewrite (RE_after_loop _ _ _ _ _ _ Hloop Hp Hprev).
  rewrite suppress_spec. cbn [fst snd].
  rewrite Hst, Hk, Hc, Hpm, Hp. rewrite Hs1. unfold with_heap.
  cbn [heap writer logged]. rewrite insert_insert_eq.
  reflexivity.
Qed.

End RE.

(** ** The translators: what they answer *)

Section Translators.
Context `{Decls}.

Lemma StripStack_inv (l : loc) (s : State) (r : error) (s' : State) :
  HTTPErrors.StripStack (ErrorPtr l) s = Ok (r, s') →
  ∃ sub, r = errorString sub ∧ s' = s
         ∧ slice_from (Error_Error (heap s) l)
             (strings_Index (Error_Error (heap s) l) "|:" + 3) = Ok sub.
Proof.
  unfold HTTPErrors.StripStack. run_monad.
  destruct (slice_from _ _) as [sub|msg]; [|done].
  intros [= <- <-]. by exists sub.
Qed.

(** C5.  An [*Error] whose Kind is Unauthenticated or Unauthorized (such
    a value is never zero) gets a response without a body, whatever its
    Code, Param and cause: status 401 or 403 written once, nothing added
    to the body, [Content-Type] left alone, and one event at error level
    that carries the status and the text [e.Error()] returns. *)
Theorem auth_errors_get_no_body (l : loc) (e : Error) (s : State) :
  heap s !! l = Some e →
  Error_Kind e = Unauthenticated ∨ Error_Kind e = Unauthorized →
  let code := if decide (Error_Kind e = Unauthenticated) then 401 else 403 in
  ∃ s', HTTPErrors.HTTPErrorResponse (ErrorPtr l) s = Ok (tt, s')
        ∧ isZero e = false
        ∧ WriteHeader_calls (writer s') = WriteHeader_calls (writer s) ++ [code]
        ∧ Written (writer s') = Written (writer s)
        ∧ Header (writer s') !! "Content-Type"
            = Header (writer s) !! "Content-Type"
        ∧ logged s' =
            logged s
            ++ [Build_Event ErrorLevel [FInt "HTTP Error StatusCode" code]
                  (Error_Error (heap s) l)]
        ∧ heap s' = heap s.
Proof.
  intros Hl Hk code. eexists. split; [by apply HTTPErrorResponse_auth|].
  cbn [heap writer logged Header WriteHeader_calls Written].
  assert (auth_status (Error_Kind e) = code) as ->.
  { unfold auth_status, code. by destruct Hk as [-> | ->]. }
  repeat split; try done.
  - unfold isZero. by destruct Hk as [-> | ->].
  - unfold nosniff. by rewrite lookup_insert_ne.
Qed.


Lemma HTTPErrorResponse_default (err : error) (s : State) (text : string) :
  err ≠ nil_error → (∀ l, err ≠ ErrorPtr l) →
  error_Error (heap s) err = Ok text →
  HTTPErrors.HTTPErrorResponse err s =
    Ok (tt, Build_State (heap s)
              (Build_ResponseWriter (json_nosniff (Header (writer s)))
                 (WriteHeader_calls (writer s) ++ [500])
                 (Written (writer s)
                  +:+ json_Marshal unanticipated_response +:+ newline))
              (logged s
               ++ [Build_Event ErrorLevel []
                     ("Unknown Error - HTTP 500 - " +:+ text)])).
Proof.
  intros Hnil Hptr Htext.
  destruct err as [|msg|l|h|h| |t]; [done| |by destruct (Hptr l)| | | |];
    unfold HTTPErrors.HTTPErrorResponse; run_monad; rewrite Htext;
    rewrite sendError_spec, json_Marshal_not_empty; reflexivity.
Qed.

Lemma HTTPErrorResponse_default_panic (err : error) (s : State)
    (msg : string) :
  err ≠ nil_error → (∀ l, err ≠ ErrorPtr l) →
  error_Error (heap s) err = Panic msg →
  HTTPErrors.HTTPErrorResponse err s = Panic msg.
Proof.
  intros Hnil Hptr Htext.
  destruct err as [|m|l|h|h| |t]; [done| |by destruct (Hptr l)| | | |];
    unfold HTTPErrors.HTTPErrorResponse; run_monad; by rewrite Htext.
Qed.




(** C8, as the code has it.  For a nil error [HTTPErrorResponse] returns,
    having written the status of the zero classification [Other], 400,
    once and no body, and having logged at error level that no response
    body was sent.  [HTTPError] does nothing for a nil error: it writes
    no status, no header and no body, and logs nothing. *)
Theorem nil_error_response (s : State) :
  (∃ s', HTTPErrors.HTTPErrorResponse nil_error s = Ok (tt, s')
         ∧ HTTPErrors.statusCode_at Other = 400
         ∧ WriteHeader_calls (writer s')
             = WriteHeader_calls (writer s) ++ [400]
         ∧ Written (writer s') = Written (writer s)
         ∧ Header (writer s') !! "Content-Type"
             = Header (writer s) !! "Content-Type"
         ∧ logged s' =
             logged s
             ++ [Build_Event ErrorLevel [FInt "HTTP Error StatusCode" 400]
                   "nil error - no response body sent"]
         ∧ heap s' = heap s)
  ∧ Part000.HTTPError nil_error s = Ok (tt, s).
Proof.
  split; [|reflexivity]. eexists. split; [apply HTTPErrorResponse_nil|].
  cbn [heap writer logged Header WriteHeader_calls Written].
  repeat split; try done. unfold nosniff. by rewrite lookup_insert_ne.
Qed.

(** [HTTPError] on a non-nil [*HTTPErr], in full. *)
Lemma HTTPError_hError (e : HTTPErr) (s : State) :
  Part000.HTTPError (HTTPErrPtr e) s =
    if Part000.StatusOnly e then
      Ok (tt,
          Build_State (heap s)
            (Build_ResponseWriter (json_nosniff (Header (writer s)))
               (WriteHeader_calls (writer s) ++ [HTTPStatusCode e])
               (Written (writer s)))
            (logged s
             ++ [Build_Event ErrorLevel
                   [FInt "HTTP Error StatusCode" (HTTPStatusCode e)]
                   EmptyString]))
    else
      match error_Error (heap s) (HTTPErrPtr e) with
      | Ok text =>
          Ok (tt,
              Build_State (heap s)
                (Build_ResponseWriter (json_nosniff (Header (writer s)))
                   (WriteHeader_calls (writer s) ++ [HTTPStatusCode e])
                   (Written (writer s)
                    +:+ json_Marshal
                          (Build_ErrResponse
                             (Build_ServiceError (Part000.ErrKind e)
                                (HTTPErr_Code e) (HTTPErr_Param e) text))
                    +:+ newline))
                (logged s
                 ++ [Build_Event ErrorLevel []
                       ("HTTP " +:+ pretty (HTTPStatusCode e) +:+ " - "
                        +:+ text)]))
      | Panic msg => Panic msg
      end.
Proof.
  unfold Part000.HTTPError. run_monad.
  destruct (Part000.StatusOnly e); cbv beta iota.
  - rewrite old_sendError_spec.
    cbn [is_empty heap writer logged Header WriteHeader_calls Written].
    by rewrite String_append_empty_r.
  - cbn [heap]. unfold fmt_error.
    destruct (error_Error (heap s) (HTTPErrPtr e)) as [text|msg]; [|done].
    rewrite old_sendError_spec.
    cbn [is_empty heap writer logged Header WriteHeader_calls Written].
    by rewrite json_Marshal_not_empty.
Qed.

(** C10.  [StatusOnly] answers true exactly when the status code is not
    zero and Kind, Param, Code and Err are all zero.  So the all-zero
    [HTTPErr] is not status-only, and [HTTPError] answers it with a JSON
    body (the record with no member) after writing status 0. *)
Theorem StatusOnly_iff (hse : HTTPErr) (s : State) :
  (Part000.StatusOnly hse = true ↔
     HTTPStatusCode hse ≠ 0 ∧ HTTPErr_Kind hse = Other
     ∧ HTTPErr_Param hse = EmptyString ∧ HTTPErr_Code hse = EmptyString
     ∧ HTTPErr_Err hse = nil_error)
  ∧ Part000.StatusOnly zero_HTTPErr = false
  ∧ ∃ s', Part000.HTTPError (HTTPErrPtr zero_HTTPErr) s = Ok (tt, s')
          ∧ WriteHeader_calls (writer s')
              = WriteHeader_calls (writer s) ++ [0]
          ∧ Written (writer s') =
              Written (writer s) +:+ empty_error_body +:+ newline
          ∧ is_empty empty_error_body = false.
Proof.
  split; [|split; [reflexivity|]].
  - unfold Part000.StatusOnly. destruct hse as [st k p c err]. cbn.
    rewrite !andb_true_iff, negb_true_iff, Z.eqb_neq, bool_decide_eq_true,
      !is_empty_true.
    split.
    + intros ((((? & ?) & ?) & ?) & He). by destruct err.
    + intros (? & ? & ? & ? & ->). done.
  - eexists. split.
    + rewrite HTTPError_hError. reflexivity.
    + by cbn.
Qed.

Lemma append_length (a b : string) :
  String.length (a +:+ b) = (String.length a + String.length b)%nat.
Proof.
  induction a as [|x a IH]; [done|].
  rewrite append_cons. cbn [String.length]. by rewrite IH.
Qed.

Lemma append_grows (a b : string) : is_empty b = false → a +:+ b ≠ a.
Proof.
  intros Hb Heq. apply (f_equal String.length) in Heq.
  rewrite append_length in Heq. destruct b; [done|]. cbn in Heq. lia.
Qed.

(** C4, as the code has it.  An [*Error] with nothing set but its Kind
    [K] is answered with the status of the fixed mapping for [K].  For
    [K] one of Other (then the value is zero), Unauthenticated and
    Unauthorized the response has no body.  For each of the other twelve
    classifications the value is not zero and, once [StripStack] has
    returned on the copy, the response carries a body: the JSON record
    with the name of [K] as kind. *)
Theorem kind_only_error_response (K : Kind) (l : loc) (e : Error) (s : State) :
  heap s !! l = Some e →
  Error_Kind e = K → Error_Code e = EmptyString →
  Error_Param e = EmptyString → Error_Err e = nil_error →
  let code := match K with
              | Unauthenticated => 401
              | Unauthorized | Permission => 403
              | Other | Invalid | Exist | NotExist | Private | BrokenLink
              | Validation | InvalidRequest => 400
              | IO | Internal | Database | Unanticipated => 500
              end in
  if bodiless K then
    ∃ s', HTTPErrors.HTTPErrorResponse (ErrorPtr l) s = Ok (tt, s')
          ∧ WriteHeader_calls (writer s')
              = WriteHeader_calls (writer s) ++ [code]
          ∧ Written (writer s') = Written (writer s)
  else
    isZero e = false
    ∧ ∀ sub s1,
        HTTPErrors.StripStack (ErrorPtr (new_loc (heap s)))
          (with_heap (<[new_loc (heap s) := e]> (heap s)) s)
          = Ok (errorString sub, s1) →
        ∃ s' message,
          HTTPErrors.HTTPErrorResponse (ErrorPtr l) s = Ok (tt, s')
          ∧ WriteHeader_calls (writer s')
              = WriteHeader_calls (writer s) ++ [code]
          ∧ Written (writer s') =
              Written (writer s)
              +:+ json_Marshal
                    (Build_ErrResponse
                       (Build_ServiceError (Kind_String K) EmptyString
                          EmptyString message))
              +:+ newline
          ∧ Written (writer s') ≠ Written (writer s).
Proof.
  intros Hl HK Hc Hp He code.
  assert (HTTPErrors.statusCode_at (Error_Kind e) = code) as Hcode.
  { rewrite HK, statusCode_total. by destruct K. }
  assert (isZero e = bool_decide (K = Other)) as Hz.
  { unfold isZero. rewrite HK, Hp, Hc, He. cbn.
    by rewrite !andb_true_r. }
  destruct (bodiless K) eqn:Hb.
  - destruct (decide (K = Other)) as [HO|HO].
    + eexists. split.
      * apply (HTTPErrorResponse_zero l e); [done|].
        rewrite Hz. by apply bool_decide_eq_true.
      * cbn [writer WriteHeader_calls Written]. by rewrite Hcode.
    + eexists. split.
      * apply (HTTPErrorResponse_auth l e); [done|].
        rewrite HK. destruct K; try done; by (left + right).
      * cbn [writer WriteHeader_calls Written]. split; [|done].
        unfold auth_status, code. rewrite HK. by destruct K.
  - assert (isZero e = false) as Hz'.
    { rewrite Hz. apply bool_decide_eq_false. by intros ->. }
    split; [done|]. intros sub s1 Hstrip.
    apply StripStack_inv in Hstrip as (sub' & [= <-] & _ & Hslice).
    cbn [heap with_heap] in Hslice.
    eexists. eexists. split.
    + apply (HTTPErrorResponse_body l e s sub); try done;
        rewrite HK; by destruct K.
    + cbn [writer WriteHeader_calls Written].
      rewrite Hcode, HK, Hc, Hp. repeat split; try done.
      by apply append_grows.
Qed.

(** C2, on the code.  [RE] leaves every struct that existed before the
    call as it was: the [*Error] arguments are copied, and only copies
    are written.  [HTTPErrorResponse] does not: on the branch that sends
    a body it stores the address of its stripped copy in the Err field of
    the struct it was handed. *)
Theorem caller_value_after_call :
  (∀ file line args s r s' l v,
     Part000.RE file line args s = Ok (r, s') →
     heap s !! l = Some v → heap s' !! l = Some v)
  ∧ (∀ l e s s',
       heap s !! l = Some e → isZero e = false →
       Error_Kind e ≠ Unauthenticated → Error_Kind e ≠ Unauthorized →
       HTTPErrors.HTTPErrorResponse (ErrorPtr l) s = Ok (tt, s') →
       ∃ l' sub,
         (l' ∉ dom (heap s))
         ∧ heap s' !! l = Some (set_Err (ErrorPtr l') e)
         ∧ heap s' !! l' = Some (stripped_copy sub e)
         ∧ ∀ k v, k ≠ l → heap s !! k = Some v → heap s' !! k = Some v).
Proof.
  split.
  - intros file line args s r s' l v Hrun Hl.
    unfold Part000.RE in Hrun. destruct args as [|a args]; [done|].
    revert Hrun. run_monad.
    destruct (Part000.RE_loop _ _ _ _ _ _) as [[[err|e] s1]|msg] eqn:Hloop;
      [| |done].
    + intros [= <- <-].
      by apply (RE_loop_frame _ _ _ _ _ _ _ _ Hloop).
    + destruct (RE_loop_frame _ _ _ _ _ _ _ _ Hloop) as (Hf & _ & Hd).
      destruct (HTTPErr_Err e) as [|m|p|h|h| |t] eqn:He;
        try (intros [= <- <-]; by apply Hf).
      run_heap. destruct (heap s1 !! p) as [pv|] eqn:Hp; [|done].
      destruct (Part000.suppress_Param _) as [pv' e'].
      run_heap. rewrite Hp. intros [= <- <-]. cbn [heap].
      destruct (Hd e p eq_refl He) as [Hc|[Hfresh _]]; [done|].
      rewrite lookup_insert_ne; [by apply Hf|].
      intros ->. apply Hfresh. apply elem_of_dom. by exists v.
  - intros l e s s' Hl Hz Hk1 Hk2 Hrun.
    destruct (slice_from
                (Error_Error (<[new_loc (heap s) := e]> (heap s))
                   (new_loc (heap s)))
                (strings_Index
                   (Error_Error (<[new_loc (heap s) := e]> (heap s))
                      (new_loc (heap s))) "|:" + 3))
      as [sub|msg] eqn:Hslice.
    + rewrite (HTTPErrorResponse_body l e s sub) in Hrun by done.
      injection Hrun as <-. cbn [heap]. unfold heap_after_strip.
      pose proof (fresh_ne _ _ _ Hl) as Hne.
      exists (new_loc (heap s)), sub. repeat split.
      * apply new_loc_fresh.
      * by rewrite lookup_insert_eq.
      * rewrite lookup_insert_ne by done. by rewrite lookup_insert_eq.
      * intros k v Hk Hv. rewrite lookup_insert_ne by done.
        rewrite lookup_insert_ne; [done|]. by apply (fresh_ne _ _ v).
    + by rewrite (HTTPErrorResponse_body_panic l e s msg) in Hrun.
Qed.

End Translators.

(** ** The builder: what it records *)

Section Builder.
Context `{Decls}.
Variables (file : string) (line : Z).

(** C3.  When the cause the argument loop of [RE] leaves in the value
    [cur] is an [*Error], the struct [prev] it points to exists and [RE]
    returns [cur] and [prev] changed as follows.  The Kind of [prev]
    becomes Other if it equals the Kind of [cur] or the Kind of [cur] is
    Other, and stays otherwise; the Kind of [cur] becomes the Kind of
    [prev] if it was Other, and stays otherwise.  Code and Param follow
    the same two rules with the empty string for Other, each on its own,
    and nothing else changes.  So Validation over Validation leaves
    Validation outside and Other inside, and Other over Database leaves
    Database outside and Other inside. *)
Theorem RE_suppresses_duplicates (args : list Part000.Arg) (s s1 : State)
    (cur : HTTPErr) (p : loc) :
  Part000.RE_loop file line args args zero_HTTPErr s = Ok (inr cur, s1) →
  HTTPErr_Err cur = ErrorPtr p →
  ∃ prev prev' cur',
    heap s1 !! p = Some prev
    ∧ Part000.RE file line args s =
        Ok (HTTPErrPtr cur', with_heap (<[p := prev']> (heap s1)) s1)
    ∧ Error_Kind prev' =
        (if decide (Error_Kind prev = HTTPErr_Kind cur
                    ∨ HTTPErr_Kind cur = Other)
         then Other else Error_Kind prev)
    ∧ HTTPErr_Kind cur' =
        (if decide (HTTPErr_Kind cur = Other)
         then Error_Kind prev else HTTPErr_Kind cur)
    ∧ Error_Code prev' =
        (if decide (Error_Code prev = HTTPErr_Code cur
                    ∨ HTTPErr_Code cur = EmptyString)
         then EmptyString else Error_Code prev)
    ∧ HTTPErr_Code cur' =
        (if decide (HTTPErr_Code cur = EmptyString)
         then Error_Code prev else HTTPErr_Code cur)
    ∧ Error_Param prev' =
        (if decide (Error_Param prev = HTTPErr_Param cur
                    ∨ HTTPErr_Param cur = EmptyString)
         then EmptyString else Error_Param prev)
    ∧ HTTPErr_Param cur' =
        (if decide (HTTPErr_Param cur = EmptyString)
         then Error_Param prev else HTTPErr_Param cur)
    ∧ Error_Err prev' = Error_Err prev
    ∧ StripError prev' = StripError prev
    ∧ Error_Location prev' = Error_Location prev
    ∧ HTTPStatusCode cur' = HTTPStatusCode cur
    ∧ HTTPErr_Err cur' = HTTPErr_Err cur
    ∧ (Error_Kind prev = Validation → HTTPErr_Kind cur = Validation →
       HTTPErr_Kind cur' = Validation ∧ Error_Kind prev' = Other)
    ∧ (HTTPErr_Kind cur = Other → Error_Kind prev = Database →
       HTTPErr_Kind cur' = Database ∧ Error_Kind prev' = Other).
Proof.
  intros Hloop Hp.
  destruct (RE_loop_frame _ _ _ _ _ _ _ _ Hloop) as (_ & _ & Hd).
  destruct (Hd cur p eq_refl Hp) as [Hc|[_ Hin]]; [done|].
  apply elem_of_dom in Hin as [prev Hprev].
  pose proof (RE_after_loop _ _ _ _ _ _ _ _ Hloop Hp Hprev) as Hrun.
  rewrite suppress_spec in Hrun. cbn [fst snd] in Hrun.
  eexists prev, _, _. split; [done|]. split; [exact Hrun|].
  cbn [Error_Kind Error_Param Error_Code Error_Err StripError Error_Location
       HTTPStatusCode HTTPErr_Kind HTTPErr_Param HTTPErr_Code HTTPErr_Err].
  repeat split; try done;
    repeat case_decide; try done; try congruence;
    exfalso; intuition congruence.
Qed.

(** C9, as the code has it.  Let every argument be of a recognised type.
    If [RE] returns, it returns an [HTTPErr] whose status code is the
    last integer argument, or 0 without one.  When the last error
    argument is not an [*Error] (or there is none), the cause is that
    argument (or nil) and Kind, Code and Param are the last argument of
    their kind, or the zero value without one.  When the last error
    argument is an [*Error], nothing but status, Kind, Code and Param
    arguments follow it; the cause is the address the call allocated for
    the copy of that argument's struct [v], new to the caller's heap;
    the Kind is the last Kind argument unless that is Other or missing,
    and then it is the Kind of [v]; Code and Param likewise with the
    empty string; and the copy in the heap afterwards has the text
    [StripStack] gave as its cause, [StripError] set, the location of
    [v], and each of Kind, Code and Param of [v] unless the field equals
    the last argument of its kind or that argument is the zero value or
    missing, and then the zero value.  Without [*Error] arguments [RE]
    does return, and changes nothing; in particular
    [RE(Invalid, NotExist)] has Kind NotExist. *)
Theorem RE_records_last_argument (args : list Part000.Arg) (s : State) :
  forallb recognised args = true →
  (∀ r s',
     Part000.RE file line args s = Ok (r, s') →
     ∃ e, r = HTTPErrPtr e
          ∧ HTTPStatusCode e = spec_last_int 0 args
          ∧ match spec_last_Err nil_error args with
            | ErrorPtr a =>
                ∃ pre post e0 s0 v sub,
                  args = pre ++ Part000.AError (ErrorPtr a) :: post
                  ∧ setters_only post = true
                  ∧ Part000.RE_loop file line args pre zero_HTTPErr s
                    = Ok (inr e0, s0)
                  ∧ (∀ l x, heap s !! l = Some x → heap s0 !! l = Some x)
                  ∧ heap s0 !! a = Some v
                  ∧ Part000.StripStack (ErrorPtr (new_loc (heap s0)))
                      (with_heap (<[new_loc (heap s0) := v]> (heap s0)) s0)
                    = Ok (errorString sub,
                          with_heap (<[new_loc (heap s0) := v]> (heap s0)) s0)
                  ∧ HTTPErr_Err e = ErrorPtr (new_loc (heap s0))
                  ∧ (new_loc (heap s0) ∉ dom (heap s))
                  ∧ heap s' =
                      <[new_loc (heap s0) :=
                          suppressed_copy (spec_last_Kind Other args)
                            (spec_last_Param EmptyString args)
                            (spec_last_Code EmptyString args) sub v]>
                        (heap s0)
                  ∧ HTTPErr_Kind e =
                      (if decide (spec_last_Kind Other args = Other)
                       then Error_Kind v else spec_last_Kind Other args)
                  ∧ HTTPErr_Code e =
                      (if decide (spec_last_Code EmptyString args
                                  = EmptyString)
                       then Error_Code v
                       else spec_last_Code EmptyString args)
                  ∧ HTTPErr_Param e =
                      (if decide (spec_last_Param EmptyString args
                                  = EmptyString)
                       then Error_Param v
                       else spec_last_Param EmptyString args)
            | c =>
                HTTPErr_Err e = c
                ∧ HTTPErr_Kind e = spec_last_Kind Other args
                ∧ HTTPErr_Code e = spec_last_Code EmptyString args
                ∧ HTTPErr_Param e = spec_last_Param EmptyString args
            end)
  ∧ (args ≠ [] →
     forallb (λ a, match a with
                   | Part000.AError (ErrorPtr _) => false
                   | _ => true
                   end) args = true →
     ∃ e, Part000.RE file line args s = Ok (HTTPErrPtr e, s))
  ∧ Part000.RE file line [Part000.AKind Invalid; Part000.AKind NotExist] s
    = Ok (HTTPErrPtr
            (Build_HTTPErr 0 NotExist EmptyString EmptyString nil_error), s).
Proof.
  intros Hrec. split; [|split; [|reflexivity]].
  - intros r s' Hrun.
    destruct args as [|a0 args0] eqn:Hargs; [done|]. rewrite <- Hargs in *.
    destruct (Part000.RE_loop file line args args zero_HTTPErr s)
      as [[[err|cur] s1]|msg] eqn:Hloop.
    + by destruct (RE_loop_recognised _ _ _ _ _ _ _ _ Hrec Hloop).
    + destruct (RE_loop_last _ _ _ _ _ _ _ _ nil_error Hloop eq_refl
                  (λ _, eq_refl)) as (Hst & Hk & Hc & Hp & Hptr & Herr).
      cbn [zero_HTTPErr HTTPStatusCode HTTPErr_Kind HTTPErr_Code
           HTTPErr_Param] in Hst, Hk, Hc, Hp.
      destruct (HTTPErr_Err cur) as [|m|p|h|h| |t] eqn:He.
      1,2,4,5,6,7:
        rewrite (RE_after_loop_plain file line args s s1 cur) in Hrun;
          [|by rewrite Hargs|done|by rewrite He];
        injection Hrun as <- <-; exists cur;
        rewrite <- (Herr eq_refl); by rewrite He.
      destruct (RE_of_loop_cause _ _ _ _ _ _ _ Hloop He)
        as (pre & a & post & e0 & s0 & v & sub & Hsplit & Hpost & Hpre & Ha
            & Hnew & Hslice & Hs1 & Hre).
      rewrite Hre in Hrun. injection Hrun as <- <-.
      eexists. split; [done|]. split; [done|].
      assert (spec_last_Err nil_error args = ErrorPtr a) as ->.
      { rewrite Hsplit. by apply spec_last_Err_split. }
      destruct (RE_loop_frame _ _ _ _ _ _ _ _ Hpre) as (Hf & _ & _).
      exists pre, post, e0, s0, v, sub. subst p.
      cbn [HTTPErr_Kind HTTPErr_Code HTTPErr_Param HTTPErr_Err heap].
      repeat split; try done.
      * unfold Part000.StripStack, with_heap. run_monad. run_heap.
        cbn [heap]. by rewrite Hslice.
      * intros Hin. apply elem_of_dom in Hin as [x Hx].
        apply Hf in Hx. apply (new_loc_fresh (heap s0)).
        apply elem_of_dom. by exists x.
    + unfold Part000.RE in Hrun. rewrite Hargs in Hrun, Hloop.
      revert Hrun. run_monad. unfold zero_HTTPErr in Hloop.
      by rewrite Hloop.
  - intros Hne Hplain.
    destruct (RE_loop_plain file line args args zero_HTTPErr s Hrec Hplain)
      as [e' Hloop].
    exists e'. apply RE_after_loop_plain; [done|done|].
    destruct (RE_loop_last _ _ _ _ _ _ _ _ nil_error Hloop eq_refl
                (λ _, eq_refl)) as (_ & _ & _ & _ & Hptr & _).
    rewrite Hptr. clear -Hplain.
    assert (∀ acc, is_ErrorPtr acc = false →
              is_ErrorPtr (spec_last_Err acc args) = false) as Hgen;
      [|by apply Hgen].
    induction args as [|a args IH]; intros acc Hacc; [done|].
    cbn [forallb] in Hplain. apply andb_prop in Hplain as [Ha Hplain].
    destruct a as [n|k|c|c|p|err|t v]; cbn [spec_last_Err];
      try by apply IH.
    destruct err; try done; by apply IH.
Qed.

End Builder.

(** C8 fails for [HTTPError]: handed the nil error with nothing written
    and nothing logged so far, it returns with still no status written
    and nothing logged. *)
Lemma HTTPError_nil_sends_nothing :
  ∃ s', Part000.HTTPError (H := SpecModel.decls) nil_error initial
          = Ok (tt, s')
        ∧ WriteHeader_calls (writer s') = []
        ∧ logged s' = [].
Proof. exists initial. by repeat split. Qed.

(** An Unauthorized error with code, parameter and cause set. *)
Lemma auth_errors_get_no_body_witness :
  ∃ s', HTTPErrors.HTTPErrorResponse (H := SpecModel.decls)
          (ErrorPtr 1%N)
          (holding (Build_Error Unauthorized "id" "E42" (errorString "boom")
                      false "svc.go:10"))
        = Ok (tt, s')
        ∧ WriteHeader_calls (writer s') = [403]
        ∧ Written (writer s') = EmptyString.
Proof.
  destruct (auth_errors_get_no_body (H := SpecModel.decls) 1%N
              (Build_Error Unauthorized "id" "E42" (errorString "boom")
                 false "svc.go:10")
              (holding (Build_Error Unauthorized "id" "E42"
                          (errorString "boom") false "svc.go:10")))
    as (s' & Hrun & _ & Hcalls & Hbody & _).
  - reflexivity.
  - right. reflexivity.
  - exists s'. repeat split; assumption.
Defined.



(** ** The statements on concrete values

    The declarations of the missing file are those of [SpecModel]. *)

(** An [*Error] without a cause: two bytes of its text are lost. *)
Lemma StripStack_without_delimiter_witness :
  HTTPErrors.StripStack (H := SpecModel.decls) (ErrorPtr 1%N)
    (holding only_Invalid)
  = Ok (errorString "c.go:10Invalid", holding only_Invalid)
  ∧ Error_Error (Decls := SpecModel.decls) (heap (holding only_Invalid))
      1%N = "svc.go:10Invalid".
Proof.
  split; [|reflexivity].
  refine (proj1 (StripStack_without_delimiter (H := SpecModel.decls)
                   1%N (holding only_Invalid) _)).
  apply strings_Index_absent. vm_compute. reflexivity.
Defined.

(** C1 at a text of one byte: the slice expression panics. *)
Lemma StripStack_panics_on_short_text :
  Error_Error (Decls := SpecModel.decls)
    (heap (holding (Build_Error Other EmptyString "x" nil_error false
                      EmptyString))) 1%N = "x"
  ∧ HTTPErrors.StripStack (H := SpecModel.decls) (ErrorPtr 1%N)
      (holding (Build_Error Other EmptyString "x" nil_error false
                  EmptyString))
    = Panic "slice bounds out of range".
Proof. split; vm_compute; reflexivity. Qed.

(** Only Kind Invalid set: status 400 and a JSON body. *)
Lemma kind_only_error_response_witness :
  ∃ s' message,
    HTTPErrors.HTTPErrorResponse (H := SpecModel.decls) (ErrorPtr 1%N)
      (holding only_Invalid) = Ok (tt, s')
    ∧ WriteHeader_calls (writer s') = [400]
    ∧ Written (writer s') =
        json_Marshal (H := SpecModel.decls)
          (Build_ErrResponse
             (Build_ServiceError "Invalid" EmptyString EmptyString message))
        +:+ newline.
Proof.
  destruct (kind_only_error_response (H := SpecModel.decls) Invalid
              1%N only_Invalid (holding only_Invalid)
              eq_refl eq_refl eq_refl eq_refl eq_refl) as [_ Hbody].
  destruct (Hbody "c.go:10Invalid"
              (with_heap (<[2%N := only_Invalid]>
                            (heap (holding only_Invalid)))
                 (holding only_Invalid)))
    as (s' & message & Hrun & Hcalls & Hwritten & _).
  - vm_compute. reflexivity.
  - exists s', message. repeat split; assumption.
Defined.

(** C4 fails at Kind Invalid: whatever the missing declarations are, an
    [*Error] with only Kind Invalid set is never answered with an empty
    body. *)
Lemma Invalid_is_not_status_only :
  ¬ ∃ (D : Decls) (s' : State),
      HTTPErrors.HTTPErrorResponse (H := D) (ErrorPtr 1%N)
        (holding only_Invalid) = Ok (tt, s')
      ∧ Written (writer s') = Written (writer (holding only_Invalid)).
Proof.
  intros (D & s' & Hrun & Hw).
  destruct (kind_only_error_response (H := D) Invalid 1%N
              only_Invalid (holding only_Invalid)
              eq_refl eq_refl eq_refl eq_refl eq_refl) as [_ Hbody].
  destruct (slice_from
              (Error_Error
                 (<[new_loc (heap (holding only_Invalid)) := only_Invalid]>
                    (heap (holding only_Invalid)))
                 (new_loc (heap (holding only_Invalid))))
              (strings_Index
                 (Error_Error
                    (<[new_loc (heap (holding only_Invalid))
                       := only_Invalid]>
                       (heap (holding only_Invalid)))
                    (new_loc (heap (holding only_Invalid)))) "|:" + 3))
    as [sub|msg] eqn:Hslice.
  - destruct (Hbody sub
                (with_heap
                   (<[new_loc (heap (holding only_Invalid))
                      := only_Invalid]> (heap (holding only_Invalid)))
                   (holding only_Invalid)))
      as (s2 & message & Hrun2 & _ & _ & Hne).
    + unfold HTTPErrors.StripStack. run_monad. cbn [heap with_heap].
      by rewrite Hslice.
    + rewrite Hrun in Hrun2. injection Hrun2 as ->. by apply Hne.
  - rewrite (HTTPErrorResponse_body_panic 1%N only_Invalid
               (holding only_Invalid) msg) in Hrun; done.
Qed.

(** The same struct handed to [RE] and to [HTTPErrorResponse]. *)
Lemma caller_value_after_call_witness :
  (∃ r s', Part000.RE (H := SpecModel.decls) "main.go" 7
             [Part000.AError (ErrorPtr 1%N)] (holding database_cause)
           = Ok (r, s')
           ∧ heap s' !! 1%N = Some database_cause)
  ∧ (∃ s' l',
       HTTPErrors.HTTPErrorResponse (H := SpecModel.decls)
         (ErrorPtr 1%N) (holding database_cause) = Ok (tt, s')
       ∧ (l' ∉ dom (heap (holding database_cause)))
       ∧ heap (holding database_cause) !! 1%N = Some database_cause
       ∧ heap s' !! 1%N
         = Some (set_Err (ErrorPtr l') database_cause)).
Proof.
  destruct (caller_value_after_call (H := SpecModel.decls)) as [HRE HHTTP].
  split.
  - assert (∃ r s', Part000.RE (H := SpecModel.decls) "main.go" 7
                      [Part000.AError (ErrorPtr 1%N)]
                      (holding database_cause) = Ok (r, s'))
      as (r & s' & Hrun) by (vm_compute; eexists; eexists; reflexivity).
    exists r, s'. split; [exact Hrun|].
    apply (HRE _ _ _ _ _ _ _ _ Hrun). reflexivity.
  - assert (∃ s', HTTPErrors.HTTPErrorResponse (H := SpecModel.decls)
                    (ErrorPtr 1%N) (holding database_cause)
                  = Ok (tt, s'))
      as (s' & Hrun) by (vm_compute; eexists; reflexivity).
    destruct (HHTTP 1%N database_cause (holding database_cause) s')
      as (l' & sub & Hfresh & Hl & _).
    + reflexivity.
    + reflexivity.
    + discriminate.
    + discriminate.
    + exact Hrun.
    + exists s', l'. split; [exact Hrun|]. split; [exact Hfresh|].
      split; [reflexivity|exact Hl].
Defined.

(** [RE(Validation, cause)] with a Validation cause. *)
Lemma RE_suppresses_duplicates_witness :
  ∃ cur' s' p prev',
    Part000.RE (H := SpecModel.decls) "main.go" 7
      [Part000.AKind Validation; Part000.AError (ErrorPtr 1%N)]
      (holding validation_cause) = Ok (HTTPErrPtr cur', s')
    ∧ HTTPErr_Kind cur' = Validation
    ∧ HTTPErr_Err cur' = ErrorPtr p
    ∧ heap s' !! p = Some prev'
    ∧ Error_Kind prev' = Other.
Proof.
  assert (∃ cur s1,
            Part000.RE_loop (H := SpecModel.decls) "main.go" 7
              [Part000.AKind Validation; Part000.AError (ErrorPtr 1%N)]
              [Part000.AKind Validation; Part000.AError (ErrorPtr 1%N)]
              zero_HTTPErr (holding validation_cause) = Ok (inr cur, s1)
            ∧ HTTPErr_Err cur = ErrorPtr 2%N
            ∧ HTTPErr_Kind cur = Validation
            ∧ heap s1 !! 2%N
              = Some (stripped_copy "boom" validation_cause))
    as (cur & s1 & Hloop & Hp & Hcur & Hcopy)
    by (vm_compute; eexists; eexists; repeat split; reflexivity).
  destruct (RE_suppresses_duplicates (H := SpecModel.decls) "main.go" 7
              [Part000.AKind Validation; Part000.AError (ErrorPtr 1%N)]
              (holding validation_cause) s1 cur 2%N Hloop Hp)
    as (prev & prev' & cur' & Hprev & Hrun & _ & _ & _ & _ & _ & _ & _ & _
        & _ & _ & Herr & Hval & _).
  injection (eq_trans (eq_sym Hcopy) Hprev) as <-.
  destruct (Hval eq_refl Hcur) as [Hk Hk'].
  exists cur', (with_heap (<[2%N := prev']> (heap s1)) s1),
    2%N, prev'.
  split; [exact Hrun|]. split; [exact Hk|].
  split; [by rewrite Herr|].
  split; [|exact Hk']. cbn [heap with_heap]. apply lookup_insert_eq.
Defined.

(** Two status codes, two kinds and two codes, without and with an
    [*Error] cause. *)
Lemma RE_records_last_argument_witness :
  (∃ e, Part000.RE (H := SpecModel.decls) "main.go" 7
          [Part000.AInt 404; Part000.AKind Invalid; Part000.AString "first";
           Part000.AInt 409; Part000.ACode "second"; Part000.AKind Exist]
          initial = Ok (HTTPErrPtr e, initial))
  ∧ (∃ e s', Part000.RE (H := SpecModel.decls) "main.go" 7
               [Part000.AInt 404; Part000.AKind Invalid;
                Part000.AString "first"; Part000.AInt 409;
                Part000.AError (ErrorPtr 1%N);
                Part000.ACode "second"; Part000.AKind Exist]
               (holding database_cause) = Ok (HTTPErrPtr e, s')
             ∧ HTTPStatusCode e = 409
             ∧ HTTPErr_Kind e = Exist
             ∧ HTTPErr_Code e = "second").
Proof.
  split.
  - destruct (RE_records_last_argument (H := SpecModel.decls) "main.go" 7
                [Part000.AInt 404; Part000.AKind Invalid;
                 Part000.AString "first"; Part000.AInt 409;
                 Part000.ACode "second"; Part000.AKind Exist] initial)
      as (_ & Hret & _).
    + reflexivity.
    + apply Hret; [discriminate|reflexivity].
  - assert (∃ r s', Part000.RE (H := SpecModel.decls) "main.go" 7
                      [Part000.AInt 404; Part000.AKind Invalid;
                       Part000.AString "first"; Part000.AInt 409;
                       Part000.AError (ErrorPtr 1%N);
                       Part000.ACode "second"; Part000.AKind Exist]
                      (holding database_cause) = Ok (r, s'))
      as (r & s' & Hrun) by (vm_compute; eexists; eexists; reflexivity).
    destruct (RE_records_last_argument (H := SpecModel.decls) "main.go" 7
                [Part000.AInt 404; Part000.AKind Invalid;
                 Part000.AString "first"; Part000.AInt 409;
                 Part000.AError (ErrorPtr 1%N);
                 Part000.ACode "second"; Part000.AKind Exist]
                (holding database_cause))
      as (Hlast & _ & _).
    + reflexivity.
    + destruct (Hlast r s' Hrun)
        as (e & -> & Hst & pre & post & e0 & s0 & v & sub & _ & _ & _ & _ & _
            & _ & _ & _ & _ & Hk & Hc & _).
      exists e, s'. split; [exact Hrun|]. split; [exact Hst|].
      split; [exact Hk|exact Hc].
Defined.

(** C9 fails when the last Kind argument is Other and the cause is an
    [*Error]: [RE(Invalid, Other, cause)] with a Database cause returns
    Kind Database, which is neither Kind argument. *)
Lemma RE_last_Kind_Other_is_replaced :
  ∃ e s',
    Part000.RE (H := SpecModel.decls) "main.go" 7
      [Part000.AKind Invalid; Part000.AKind Other;
       Part000.AError (ErrorPtr 1%N)]
      (holding database_cause) = Ok (HTTPErrPtr e, s')
    ∧ spec_last_Kind Other
        [Part000.AKind Invalid; Part000.AKind Other;
         Part000.AError (ErrorPtr 1%N)] = Other
    ∧ HTTPErr_Kind e = Database.
Proof.
  eexists. eexists. split; [vm_compute; reflexivity|]. by split.
Qed.

(** ** Further properties: stripping at the delimiter *)

Lemma strings_Index_le_occurrence (sub : string) :
  ∀ (pre post s : string),
    s = pre +:+ sub +:+ post → strings_Index s sub ≤ len pre.
Proof.
  induction pre as [|a pre IH]; intros post s ->.
  - assert (String.prefix sub (EmptyString +:+ sub +:+ post) = true) as Hp
      by (apply prefix_iff; by exists post).
    destruct (EmptyString +:+ sub +:+ post) as [|b t] eqn:E;
      cbn [strings_Index]; rewrite Hp; unfold len; cbn; lia.
  - rewrite append_cons. cbn [strings_Index].
    destruct (String.prefix sub _); [unfold len; cbn; lia|].
    pose proof (IH post _ eq_refl) as Hle.
    destruct (strings_Index _ sub <? 0) eqn:E; unfold len in *;
      cbn [String.length]; lia.
Qed.

Lemma strings_Index_first (sub : string) :
  ∀ (pre post s : string),
    s = pre +:+ sub +:+ post →
    (∀ pre' post', s = pre' +:+ sub +:+ post' →
       (String.length pre ≤ String.length pre')%nat) →
    strings_Index s sub = len pre.
Proof.
  induction pre as [|a pre IH]; intros post s -> Hmin.
  - assert (String.prefix sub (EmptyString +:+ sub +:+ post) = true) as Hp
      by (apply prefix_iff; by exists post).
    destruct (EmptyString +:+ sub +:+ post) as [|b t] eqn:E;
      cbn [strings_Index]; by rewrite Hp.
  - rewrite append_cons. cbn [strings_Index].
    destruct (String.prefix sub _) eqn:Hp.
    + apply prefix_iff in Hp as [post' Hp].
      specialize (Hmin EmptyString post'). rewrite append_cons in Hmin.
      specialize (Hmin Hp). cbn in Hmin. lia.
    + rewrite (IH post _ eq_refl).
      * pose proof (Nat2Z.is_nonneg (String.length pre)) as Hnn.
        fold (len pre) in Hnn.
        destruct (len pre <? 0) eqn:E; [apply Z.ltb_lt in E; lia|].
        unfold len. cbn [String.length]. lia.
      * intros pre' post' Heq.
        specialize (Hmin (String a pre') post').
        rewrite !append_cons in Hmin. rewrite Heq in Hmin.
        specialize (Hmin eq_refl). cbn in Hmin. lia.
Qed.

Lemma string_drop_app (pre t : string) :
  string_drop (String.length pre) (pre +:+ t) = t.
Proof. induction pre as [|a pre IH]; [by destruct t|]. by rewrite append_cons. Qed.

Lemma string_drop_add (n m : nat) (s : string) :
  string_drop (n + m) s = string_drop m (string_drop n s).
Proof.
  revert s. induction n as [|n IH]; intros s; [done|].
  destruct s as [|a s]; cbn [string_drop Nat.add]; [|apply IH].
  by destruct m.
Qed.

Section StripStackFound.
Context `{Decls}.

Lemma StripStack_found (l : loc) (s : State) (pre post : string) :
  Error_Error (heap s) l = pre +:+ "|:" +:+ post →
  strings_Index (Error_Error (heap s) l) "|:" = len pre →
  HTTPErrors.StripStack (ErrorPtr l) s =
    match post with
    | EmptyString => Panic "slice bounds out of range"
    | String _ rest => Ok (errorString rest, s)
    end.
Proof.
  intros Htext Hidx. unfold HTTPErrors.StripStack. run_monad.
  rewrite Hidx, Htext. unfold slice_from, len.
  rewrite !append_length.
  destruct post as [|c rest]; cbn [String.length].
  - replace (_ <? 0) with false by (symmetry; apply Z.ltb_ge; lia).
    replace (_ <? _) with true by (symmetry; apply Z.ltb_lt; lia).
    done.
  - replace (_ <? 0) with false by (symmetry; apply Z.ltb_ge; lia).
    replace (_ <? _) with false by (symmetry; apply Z.ltb_ge; lia).
    cbn [orb].
    replace (Z.to_nat (Z.of_nat (String.length pre) + 3))
      with (String.length pre + 3)%nat by lia.
    by rewrite string_drop_add, string_drop_app.
Qed.

(** X1.  For an [*Error] whose text holds the delimiter, [StripStack]
    cuts at its first occurrence: it answers the text that follows the
    delimiter and one more byte, and it panics when the delimiter is the
    very end of the text. *)
Theorem StripStack_at_first_delimiter (l : loc) (s : State)
    (pre post : string) :
  Error_Error (heap s) l = pre +:+ "|:" +:+ post →
  (∀ pre' post', Error_Error (heap s) l = pre' +:+ "|:" +:+ post' →
     (String.length pre ≤ String.length pre')%nat) →
  HTTPErrors.StripStack (ErrorPtr l) s =
    match post with
    | EmptyString => Panic "slice bounds out of range"
    | String _ rest => Ok (errorString rest, s)
    end
  ∧ Part000.StripStack (ErrorPtr l) s =
    match post with
    | EmptyString => Panic "slice bounds out of range"
    | String _ rest => Ok (errorString rest, s)
    end.
Proof.
  intros Htext Hmin.
  pose proof (strings_Index_first "|:" pre post _ Htext Hmin) as Hidx.
  split; [|rewrite StripStack_same]; by apply (StripStack_found l s pre post).
Qed.

(** X2.  Stripping twice is stripping once: what [StripStack] returns is
    never an [*Error], so a second call hands it back; and [StripStack]
    changes nothing in the heap, the response or the log. *)
Theorem StripStack_idempotent (e r : error) (s s' : State) :
  HTTPErrors.StripStack e s = Ok (r, s') →
  s' = s
  ∧ (∀ l, r ≠ ErrorPtr l)
  ∧ HTTPErrors.StripStack r s' = Ok (r, s')
  ∧ Part000.StripStack r s' = Ok (r, s').
Proof.
  intros Hrun. destruct e as [|msg|l|h|h| |t];
    try (injection Hrun as <- <-; by repeat split).
  apply StripStack_inv in Hrun as (sub & -> & -> & _). by repeat split.
Qed.

End StripStackFound.

(** The cause of a Database error, stripped to its message. *)
Lemma StripStack_at_first_delimiter_witness :
  Error_Error (Decls := SpecModel.decls) (heap (holding database_cause))
    1%N = "svc.go:10Database|: boom"
  ∧ HTTPErrors.StripStack (H := SpecModel.decls) (ErrorPtr 1%N)
      (holding database_cause)
    = Ok (errorString "boom", holding database_cause).
Proof.
  split; [reflexivity|].
  refine (proj1 (StripStack_at_first_delimiter (H := SpecModel.decls)
                   1%N (holding database_cause)
                   "svc.go:10Database" " boom" eq_refl _)).
  intros pre' post' Heq.
  pose proof (strings_Index_le_occurrence "|:" pre' post' _ Heq) as Hle.
  change (17 ≤ len pre') in Hle. unfold len in Hle.
  change (String.length "svc.go:10Database") with 17%nat. lia.
Defined.

(** Stripping the stripped message again. *)
Lemma StripStack_idempotent_witness :
  HTTPErrors.StripStack (H := SpecModel.decls) (errorString "boom")
    (holding database_cause)
  = Ok (errorString "boom", holding database_cause).
Proof.
  refine (proj1 (proj2 (proj2
    (StripStack_idempotent (H := SpecModel.decls) (ErrorPtr 1%N)
       (errorString "boom") (holding database_cause)
       (holding database_cause) _)))).
  vm_compute. reflexivity.
Defined.

(** ** Further properties: [HTTPErrorResponse] *)

Section HTTPErrorResponseMore.
Context `{Decls}.

Lemma statusCode_range (k : Kind) :
  HTTPErrors.statusCode_at k = 400 ∨ HTTPErrors.statusCode_at k = 401
  ∨ HTTPErrors.statusCode_at k = 403 ∨ HTTPErrors.statusCode_at k = 500.
Proof. rewrite statusCode_total. destruct k; auto. Qed.

Lemma auth_status_range (k : Kind) :
  auth_status k = 401 ∨ auth_status k = 403.
Proof. unfold auth_status. case_decide; auto. Qed.

Lemma HTTPErrorResponse_nil_pointer (l : loc) (s : State) :
  heap s !! l = None →
  HTTPErrors.HTTPErrorResponse (ErrorPtr l) s =
    Panic "invalid memory address or nil pointer dereference".
Proof.
  intros Hl. unfold HTTPErrors.HTTPErrorResponse. run_monad. run_heap.
  by rewrite Hl.
Qed.

(** The text [StripStack] works on in the body branch: that of the copy. *)
Lemma body_branch_cases (l : loc) (e : Error) (s : State) :
  heap s !! l = Some e →
  (isZero e = true
   ∨ Error_Kind e = Unauthenticated ∨ Error_Kind e = Unauthorized)
  ∨ (isZero e = false ∧ Error_Kind e ≠ Unauthenticated
     ∧ Error_Kind e ≠ Unauthorized).
Proof.
  intros _. destruct (isZero e); [by left; left|].
  destruct (decide (Error_Kind e = Unauthenticated)); [by left; right; left|].
  destruct (decide (Error_Kind e = Unauthorized)); [by left; right; right|].
  by right.
Qed.

(** X3.  Whenever [HTTPErrorResponse] returns, it has sent exactly one
    response: one [WriteHeader] call, with a status among 400, 401, 403
    and 500, the nosniff header set, and one event added to the log.
    [Content-Type] is set to [application/json] exactly when something
    was written to the body, and left alone otherwise. *)
Theorem HTTPErrorResponse_one_response (err : error) (s s' : State) :
  HTTPErrors.HTTPErrorResponse err s = Ok (tt, s') →
  ∃ code ev,
    (code = 400 ∨ code = 401 ∨ code = 403 ∨ code = 500)
    ∧ WriteHeader_calls (writer s') = WriteHeader_calls (writer s) ++ [code]
    ∧ Header (writer s') !! "X-Content-Type-Options" = Some "nosniff"
    ∧ logged s' = logged s ++ [ev]
    ∧ ((Written (writer s') = Written (writer s)
        ∧ Header (writer s') !! "Content-Type"
          = Header (writer s) !! "Content-Type")
       ∨ (Written (writer s') ≠ Written (writer s)
          ∧ Header (writer s') !! "Content-Type" = Some "application/json")).
Proof.
  intros Hrun.
  assert (∀ m : gmap string string,
            nosniff m !! "X-Content-Type-Options" = Some "nosniff"
            ∧ nosniff m !! "Content-Type" = m !! "Content-Type") as Hns.
  { intros m. unfold nosniff.
    by rewrite lookup_insert_eq, lookup_insert_ne. }
  assert (∀ m : gmap string string,
            json_nosniff m !! "X-Content-Type-Options" = Some "nosniff"
            ∧ json_nosniff m !! "Content-Type" = Some "application/json")
    as Hjs.
  { intros m. unfold json_nosniff.
    rewrite lookup_insert_eq, lookup_insert_ne by done.
    by rewrite lookup_insert_eq. }
  assert (∀ a b, Written (writer s) +:+ json_Marshal a +:+ b
                 ≠ Written (writer s)) as Hgrow.
  { intros a b. by apply append_grows. }
  assert (err ≠ nil_error → (∀ l, err ≠ ErrorPtr l) →
          ∃ code ev,
            (code = 400 ∨ code = 401 ∨ code = 403 ∨ code = 500)
            ∧ WriteHeader_calls (writer s')
              = WriteHeader_calls (writer s) ++ [code]
            ∧ Header (writer s') !! "X-Content-Type-Options" = Some "nosniff"
            ∧ logged s' = logged s ++ [ev]
            ∧ ((Written (writer s') = Written (writer s)
                ∧ Header (writer s') !! "Content-Type"
                  = Header (writer s) !! "Content-Type")
               ∨ (Written (writer s') ≠ Written (writer s)
                  ∧ Header (writer s') !! "Content-Type"
                    = Some "application/json"))) as Hdefault.
  { intros Hnil Hptr.
    destruct (error_Error (heap s) err) as [text|m] eqn:Htext;
      [|by rewrite (HTTPErrorResponse_default_panic err s m) in Hrun].
    rewrite (HTTPErrorResponse_default err s text) in Hrun by done.
    injection Hrun as <-.
    eexists 500, _. cbn [writer logged Header WriteHeader_calls Written].
    destruct (Hjs (Header (writer s))) as [? ?].
    repeat split; auto 6. }
  destruct err as [|msg|l|h|h| |t]; try (by apply Hdefault).
  - rewrite HTTPErrorResponse_nil in Hrun. injection Hrun as <-.
    eexists 400, _. cbn [writer logged Header WriteHeader_calls Written].
    destruct (Hns (Header (writer s))) as [? ?].
    repeat split; auto.
  - destruct (heap s !! l) as [e|] eqn:Hl;
      [|by rewrite HTTPErrorResponse_nil_pointer in Hrun].
    destruct (body_branch_cases l e s Hl) as [[Hz|Hk]|(Hz & Hk1 & Hk2)].
    + rewrite (HTTPErrorResponse_zero l e s Hl Hz) in Hrun.
      injection Hrun as <-. eexists _, _.
      cbn [writer logged Header WriteHeader_calls Written].
      destruct (Hns (Header (writer s))) as [? ?].
      repeat split; auto using statusCode_range.
    + rewrite (HTTPErrorResponse_auth l e s Hl Hk) in Hrun.
      injection Hrun as <-. exists (auth_status (Error_Kind e)). eexists.
      cbn [writer logged Header WriteHeader_calls Written].
      destruct (Hns (Header (writer s))) as [? ?].
      split; [destruct (auth_status_range (Error_Kind e)) as [-> | ->];
              auto|].
      repeat split; auto.
    + destruct (slice_from
                  (Error_Error (<[new_loc (heap s) := e]> (heap s))
                     (new_loc (heap s)))
                  (strings_Index
                     (Error_Error (<[new_loc (heap s) := e]> (heap s))
                        (new_loc (heap s))) "|:" + 3))
        as [sub|msg] eqn:Hslice.
      * rewrite (HTTPErrorResponse_body l e s sub) in Hrun by done.
        injection Hrun as <-. eexists _, _.
        cbn [writer logged Header WriteHeader_calls Written].
        destruct (Hjs (Header (writer s))) as [? ?].
        repeat split; auto using statusCode_range.
      * by rewrite (HTTPErrorResponse_body_panic l e s msg) in Hrun.
Qed.


(** X5.  On the branch that sends a body, whatever Code, Param and cause
    the [*Error] has: the log gets the full text, taken from the copy
    before it is stripped, with the status, Kind, Param and Code as
    fields; the client gets the JSON record of the name of the Kind, the
    Code, the Param and the text the struct has after the call; and the
    struct keeps its Kind, Param, Code, StripError flag and location. *)
Theorem HTTPErrorResponse_log_and_body (l : loc) (e : Error) (s : State)
    (sub : string) :
  heap s !! l = Some e →
  isZero e = false →
  Error_Kind e ≠ Unauthenticated → Error_Kind e ≠ Unauthorized →
  slice_from
    (Error_Error (<[new_loc (heap s) := e]> (heap s))
       (new_loc (heap s)))
    (strings_Index
       (Error_Error (<[new_loc (heap s) := e]> (heap s))
          (new_loc (heap s))) "|:" + 3) = Ok sub →
  ∃ s' e',
    HTTPErrors.HTTPErrorResponse (ErrorPtr l) s = Ok (tt, s')
    ∧ logged s' =
        logged s
        ++ [Build_Event ErrorLevel
              [FStr "error"
                 (Error_Error (<[new_loc (heap s) := e]> (heap s))
                    (new_loc (heap s)));
               FInt "HTTPStatusCode" (HTTPErrors.statusCode_at (Error_Kind e));
               FStr "Kind" (Kind_String (Error_Kind e));
               FStr "Parameter" (Error_Param e);
               FStr "Code" (Error_Code e)]
              "Response Error Sent"]
    ∧ Written (writer s') =
        Written (writer s)
        +:+ json_Marshal
              (Build_ErrResponse
                 (Build_ServiceError (Kind_String (Error_Kind e))
                    (Error_Code e) (Error_Param e)
                    (Error_Error (heap s') l)))
        +:+ newline
    ∧ WriteHeader_calls (writer s')
      = WriteHeader_calls (writer s) ++ [HTTPErrors.statusCode_at (Error_Kind e)]
    ∧ heap s' !! l = Some e'
    ∧ Error_Kind e' = Error_Kind e ∧ Error_Param e' = Error_Param e
    ∧ Error_Code e' = Error_Code e ∧ StripError e' = StripError e
    ∧ Error_Location e' = Error_Location e.
Proof.
  intros Hl Hz Hk1 Hk2 Hslice.
  eexists _, (set_Err (ErrorPtr (new_loc (heap s))) e).
  split; [by apply (HTTPErrorResponse_body l e s sub)|].
  cbn [heap writer logged Header WriteHeader_calls Written].
  repeat split; try done.
  unfold heap_after_strip. by rewrite lookup_insert_eq.
Qed.

End HTTPErrorResponseMore.

(** A Database error with a cause: status 500 and one event. *)
Lemma HTTPErrorResponse_one_response_witness :
  ∃ s', HTTPErrors.HTTPErrorResponse (H := SpecModel.decls)
          (ErrorPtr 1%N) (holding database_cause) = Ok (tt, s')
        ∧ WriteHeader_calls (writer s') = [500]
        ∧ length (logged s') = 1%nat.
Proof.
  assert (∃ s', HTTPErrors.HTTPErrorResponse (H := SpecModel.decls)
                  (ErrorPtr 1%N) (holding database_cause)
                = Ok (tt, s'))
    as (s' & Hrun) by (vm_compute; eexists; reflexivity).
  destruct (HTTPErrorResponse_one_response (H := SpecModel.decls) _ _ _ Hrun)
    as (code & ev & Hcode & Hcalls & _ & Hlog & _).
  exists s'. split; [exact Hrun|].
  rewrite Hlog. split; [|reflexivity].
  revert Hcalls. generalize Hrun. vm_compute.
  intros [= <-]. reflexivity.
Defined.

(** The same error: the log has the full text, the struct keeps its
    Kind. *)
Lemma HTTPErrorResponse_log_and_body_witness :
  ∃ s' e',
    HTTPErrors.HTTPErrorResponse (H := SpecModel.decls)
      (ErrorPtr 1%N) (holding database_cause) = Ok (tt, s')
    ∧ logged s' =
        [Build_Event ErrorLevel
           [FStr "error" "svc.go:10Database|: boom";
            FInt "HTTPStatusCode" 500;
            FStr "Kind" "Database";
            FStr "Parameter" EmptyString;
            FStr "Code" EmptyString]
           "Response Error Sent"]
    ∧ heap s' !! 1%N = Some e'
    ∧ Error_Kind e' = Database.
Proof.
  destruct (HTTPErrorResponse_log_and_body (H := SpecModel.decls)
              1%N database_cause (holding database_cause) "boom")
    as (s' & e' & Hrun & Hlog & _ & _ & He' & Hk & _).
  - reflexivity.
  - reflexivity.
  - discriminate.
  - discriminate.
  - vm_compute. reflexivity.
  - exists s', e'. split; [exact Hrun|]. split; [exact Hlog|].
    split; [exact He'|exact Hk].
Defined.


(** ** Further properties: [HTTPErr] and [HTTPError] *)

Section HTTPErrorMore.
Context `{Decls}.

Lemma json_nosniff_lookup (m : gmap string string) :
  json_nosniff m !! "X-Content-Type-Options" = Some "nosniff"
  ∧ json_nosniff m !! "Content-Type" = Some "application/json".
Proof.
  unfold json_nosniff. rewrite lookup_insert_eq, lookup_insert_ne by done.
  by rewrite lookup_insert_eq.
Qed.

(** X6.  For a [*HTTPErr], [HTTPError] sends the status code the value
    carries, without any lookup.  When the value is status-only nothing
    is written to the body and the log gets the status as a field; else
    the body is the JSON record of [ErrKind], Code, Param and message,
    where [ErrKind] is empty, so the kind member is left out, for Kind
    Other.  [Content-Type] is set in both cases.  The message is what
    the [Error] method of the value returns; should that method panic,
    which it does when the chain of causes ends in a nil [*HTTPErr],
    [HTTPError] panics with it. *)
Theorem HTTPError_explicit_status (e : HTTPErr) (s : State) :
  if Part000.StatusOnly e then
    ∃ s', Part000.HTTPError (HTTPErrPtr e) s = Ok (tt, s')
          ∧ WriteHeader_calls (writer s')
            = WriteHeader_calls (writer s) ++ [HTTPStatusCode e]
          ∧ Header (writer s') !! "Content-Type" = Some "application/json"
          ∧ Written (writer s') = Written (writer s)
          ∧ logged s' =
              logged s
              ++ [Build_Event ErrorLevel
                    [FInt "HTTP Error StatusCode" (HTTPStatusCode e)]
                    EmptyString]
  else
    match error_Error (heap s) (HTTPErrPtr e) with
    | Ok text =>
        ∃ s', Part000.HTTPError (HTTPErrPtr e) s = Ok (tt, s')
              ∧ WriteHeader_calls (writer s')
                = WriteHeader_calls (writer s) ++ [HTTPStatusCode e]
              ∧ Header (writer s') !! "Content-Type"
                = Some "application/json"
              ∧ Written (writer s') =
                  Written (writer s)
                  +:+ json_Marshal
                        (Build_ErrResponse
                           (Build_ServiceError
                              (if decide (HTTPErr_Kind e = Other)
                               then EmptyString
                               else Kind_String (HTTPErr_Kind e))
                              (HTTPErr_Code e) (HTTPErr_Param e) text))
                  +:+ newline
              ∧ logged s' =
                  logged s
                  ++ [Build_Event ErrorLevel []
                        ("HTTP " +:+ pretty (HTTPStatusCode e) +:+ " - "
                         +:+ text)]
    | Panic msg => Part000.HTTPError (HTTPErrPtr e) s = Panic msg
    end.
Proof.
  destruct (json_nosniff_lookup (Header (writer s))) as [_ Hct].
  rewrite HTTPError_hError.
  destruct (Part000.StatusOnly e);
    [|destruct (error_Error (heap s) (HTTPErrPtr e)) as [text|msg];
      [|done]];
    eexists; (split; [reflexivity|]);
    cbn [heap writer logged Header WriteHeader_calls Written];
    by repeat split.
Qed.


(** X8.  After [SetErr(msg)] the method [Error] returns [msg], the value
    is no longer status-only whatever else it holds, and [HTTPError]
    sends it with its status code and a body whose message is [msg]. *)
Theorem SetErr_then_HTTPError (msg : string) (hse : HTTPErr) (s : State) :
  error_Error (heap s) (HTTPErrPtr (Part000.SetErr msg hse)) = Ok msg
  ∧ Part000.StatusOnly (Part000.SetErr msg hse) = false
  ∧ ∃ s', Part000.HTTPError (HTTPErrPtr (Part000.SetErr msg hse)) s
          = Ok (tt, s')
          ∧ WriteHeader_calls (writer s')
            = WriteHeader_calls (writer s) ++ [HTTPStatusCode hse]
          ∧ Written (writer s') =
              Written (writer s)
              +:+ json_Marshal
                    (Build_ErrResponse
                       (Build_ServiceError (Part000.ErrKind hse)
                          (HTTPErr_Code hse) (HTTPErr_Param hse) msg))
              +:+ newline.
Proof.
  assert (Part000.StatusOnly (Part000.SetErr msg hse) = false) as Hso.
  { unfold Part000.StatusOnly, Part000.SetErr. cbn. by rewrite andb_false_r. }
  split; [done|]. split; [done|].
  rewrite HTTPError_hError, Hso.
  change (error_Error (heap s) (HTTPErrPtr (Part000.SetErr msg hse)))
    with (Ok (A := string) msg).
  eexists. split; [reflexivity|].
  by cbn [heap writer logged Header WriteHeader_calls Written].
Qed.

End HTTPErrorMore.


(** ** Further properties: [RE] *)

Section REMore.
Context `{Decls}.
Variables (file : string) (line : Z).

(** [RE], taken apart into its loop and what follows. *)
Lemma RE_inv (args : list Part000.Arg) (s : State) (r : error) (s' : State) :
  Part000.RE file line args s = Ok (r, s') →
  args ≠ []
  ∧ ∃ r0 s1,
      Part000.RE_loop file line args args zero_HTTPErr s = Ok (r0, s1)
      ∧ match r0 with
        | inl err => r = err ∧ s' = s1
        | inr cur =>
            match HTTPErr_Err cur with
            | ErrorPtr p =>
                ∃ prev, heap s1 !! p = Some prev
                        ∧ r = HTTPErrPtr (suppress_all (prev, cur)).2
                        ∧ s' = with_heap
                                 (<[p := (suppress_all (prev, cur)).1]>
                                    (heap s1)) s1
            | _ => r = HTTPErrPtr cur ∧ s' = s1
            end
        end.
Proof.
  intros Hrun. unfold Part000.RE in Hrun.
  destruct args as [|a args]; [done|]. split; [done|].
  revert Hrun. run_monad. fold zero_HTTPErr.
  destruct (Part000.RE_loop _ _ _ _ _ _) as [[[err|cur] s1]|msg]; [| |done].
  - intros [= <- <-]. by eexists _, _.
  - intros Hrun. eexists _, _. split; [done|]. cbv beta iota.
    destruct (HTTPErr_Err cur) as [|m|p|h|h| |t];
      try (by injection Hrun as <- <-).
    revert Hrun. run_heap.
    destruct (heap s1 !! p) as [prev|] eqn:Hp; [|done].
    unfold suppress_all.
    destruct (Part000.suppress_Param _) as [pv' e'] eqn:Hsup.
    run_heap. rewrite Hp.
    intros [= <- <-]. exists prev. by rewrite Hsup.
Qed.

(** The loop stops at the first argument of an unknown type. *)
Lemma RE_loop_unrecognised (args rest : list Part000.Arg) :
  ∀ (e : HTTPErr) (s : State) (r : error + HTTPErr) (s' : State),
    Part000.RE_loop file line args rest e s = Ok (r, s') →
    match spec_first_unrecognised rest with
    | Some bad => r = inl (unknown_type_error (heap s') bad)
    | None => ∃ e', r = inr e'
    end.
Proof.
  unfold spec_first_unrecognised.
  induction rest as [|arg rest IH]; intros e s r s' Hrun.
  - cbn in Hrun. injection Hrun as <- <-. by eexists.
  - destruct arg as [n|k|c|c|p|err|t v].
    1-5: cbn [Part000.RE_loop] in Hrun; by apply IH in Hrun.
    + destruct err as [|msg|a|h|h| |t].
      3: { rewrite RE_loop_ErrorPtr in Hrun.
           destruct (heap s !! a) as [v|]; [|done]. cbv zeta in Hrun.
           destruct (slice_from _ _) as [sub|msg]; [|done].
           by apply IH in Hrun. }
      1: { cbn in Hrun. by injection Hrun as <- <-. }
      all: cbn [Part000.RE_loop] in Hrun; by apply IH in Hrun.
    + cbn in Hrun. by injection Hrun as <- <-.
Qed.

(** A cause the loop attaches is a stripped copy. *)
Lemma RE_loop_cause (args rest : list Part000.Arg) :
  ∀ (e : HTTPErr) (s : State) (e' : HTTPErr) (s' : State) (p : loc),
    Part000.RE_loop file line args rest e s = Ok (inr e', s') →
    HTTPErr_Err e' = ErrorPtr p →
    HTTPErr_Err e = ErrorPtr p
    ∨ ∃ sub v, heap s' !! p = Some (stripped_copy sub v).
Proof.
  induction rest as [|arg rest IH]; intros e s e' s' p Hrun Hp.
  - cbn in Hrun. injection Hrun as <- <-. by left.
  - destruct arg as [n|k|c|c|q|err|t v].
    1-5: cbn [Part000.RE_loop] in Hrun; by apply (IH _ _ _ _ p) in Hrun.
    + destruct err as [|msg|a|h|h| |t].
      3: { rewrite RE_loop_ErrorPtr in Hrun.
           destruct (heap s !! a) as [v|]; [|done]. cbv zeta in Hrun.
           destruct (slice_from _ _) as [sub|msg]; [|done].
           pose proof (RE_loop_frame _ _ _ _ _ _ _ _ Hrun) as (Hf & _ & _).
           apply (IH _ _ _ _ p) in Hrun as [Hc|?]; [|by right|done].
           cbn in Hc. injection Hc as <-. right. exists sub, v.
           apply Hf. cbn [heap]. by rewrite lookup_insert_eq. }
      1: { cbn in Hrun. by injection Hrun. }
      all: cbn [Part000.RE_loop] in Hrun;
        apply (IH _ _ _ _ p) in Hrun as [Hc|?]; [done|by right|done].
    + cbn in Hrun. by injection Hrun.
Qed.

(** The loop logs once for each [*Error] argument. *)
Lemma RE_loop_log (args rest : list Part000.Arg) :
  ∀ (e : HTTPErr) (s : State) (e' : HTTPErr) (s' : State),
    Part000.RE_loop file line args rest e s = Ok (inr e', s') →
    ∃ evs, logged s' = logged s ++ evs
           ∧ length evs = count_ErrorPtr rest
           ∧ Forall (λ ev, Event_Msg ev = "Response Error (RE)") evs.
Proof.
  induction rest as [|arg rest IH]; intros e s e' s' Hrun.
  - cbn in Hrun. injection Hrun as <- <-. exists [].
    by rewrite app_nil_r.
  - destruct arg as [n|k|c|c|q|err|t v].
    1-5: cbn [Part000.RE_loop] in Hrun; by apply IH in Hrun.
    + destruct err as [|msg|a|h|h| |t].
      3: { rewrite RE_loop_ErrorPtr in Hrun.
           destruct (heap s !! a) as [v|]; [|done]. cbv zeta in Hrun.
           destruct (slice_from _ _) as [sub|msg]; [|done].
           apply IH in Hrun as (evs & Hlog & Hlen & Hall).
           cbn [logged] in Hlog. rewrite <- app_assoc in Hlog.
           eexists. split; [exact Hlog|]. cbn [count_ErrorPtr].
           split; [cbn; by rewrite Hlen|]. by constructor. }
      1: { cbn in Hrun. by injection Hrun. }
      all: cbn [Part000.RE_loop] in Hrun; by apply IH in Hrun.
    + cbn in Hrun. by injection Hrun.
Qed.

(** X9.  [RE] returns only for a non-empty argument list (it panics on
    the empty one), and never touches the response.  What it returns is
    the unknown-type error for the first argument whose type the switch
    does not name, if there is one, and a [*HTTPErr] otherwise: never
    nil, never an [*Error]. *)
Theorem RE_result (args : list Part000.Arg) (s : State) (r : error)
    (s' : State) :
  Part000.RE file line args s = Ok (r, s') →
  args ≠ []
  ∧ Part000.RE file line [] s = Panic "call to errors.RE with no arguments"
  ∧ writer s' = writer s
  ∧ match spec_first_unrecognised args with
    | Some bad => r = unknown_type_error (heap s') bad
    | None => ∃ e, r = HTTPErrPtr e
    end.
Proof.
  intros Hrun. apply RE_inv in Hrun as (Hne & r0 & s1 & Hloop & Hr).
  split; [done|]. split; [done|].
  pose proof (RE_loop_frame _ _ _ _ _ _ _ _ Hloop) as (_ & Hw & _).
  pose proof (RE_loop_unrecognised _ _ _ _ _ _ Hloop) as Hbad.
  destruct r0 as [err|cur].
  - destruct Hr as [-> ->]. split; [done|].
    destruct (spec_first_unrecognised args) as [bad|];
      [by injection Hbad|by destruct Hbad].
  - destruct (spec_first_unrecognised args) as [bad|]; [done|].
    destruct (HTTPErr_Err cur) as [|m|p|h|h| |t];
      try (destruct Hr as [-> ->]; split; [done|by eexists]).
    destruct Hr as (prev & _ & -> & ->). split; [done|by eexists].
Qed.

(** X10.  A value built by [RE] means nothing to [HTTPErrorResponse]:
    whatever the arguments were, status code included, it is answered
    with status 500 and the record for unanticipated errors.  That is
    so when the [Error] method of the value returns; should it panic,
    which it does when the chain of causes ends in a nil [*HTTPErr],
    [HTTPErrorResponse] panics with it. *)
Theorem RE_then_HTTPErrorResponse (args : list Part000.Arg) (s : State)
    (r : error) (s1 : State) :
  Part000.RE file line args s = Ok (r, s1) →
  match error_Error (heap s1) r with
  | Ok _ =>
      ∃ s2, HTTPErrors.HTTPErrorResponse r s1 = Ok (tt, s2)
            ∧ WriteHeader_calls (writer s2)
              = WriteHeader_calls (writer s) ++ [500]
            ∧ Written (writer s2) =
                Written (writer s)
                +:+ json_Marshal unanticipated_response +:+ newline
            ∧ heap s2 = heap s1
  | Panic msg => HTTPErrors.HTTPErrorResponse r s1 = Panic msg
  end.
Proof.
  intros Hrun. apply RE_inv in Hrun as (Hne & r0 & s1' & Hloop & Hr).
  pose proof (RE_loop_frame _ _ _ _ _ _ _ _ Hloop) as (_ & Hw & _).
  pose proof (RE_loop_unrecognised _ _ _ _ _ _ Hloop) as Hbad.
  assert (writer s1 = writer s ∧ r ≠ nil_error ∧ ∀ l, r ≠ ErrorPtr l)
    as (Hw1 & Hnil & Hptr).
  { destruct r0 as [err|cur].
    - destruct Hr as [-> ->]. split; [done|].
      destruct (spec_first_unrecognised args) as [bad|];
        [by injection Hbad as ->|by destruct Hbad].
    - destruct (HTTPErr_Err cur) as [|m|p|h|h| |t];
        try (by destruct Hr as [-> ->]).
      by destruct Hr as (prev & _ & -> & ->). }
  destruct (error_Error (heap s1) r) as [text|msg] eqn:Htext;
    [|by apply HTTPErrorResponse_default_panic].
  eexists. split; [by apply (HTTPErrorResponse_default r s1 text)|].
  cbn [heap writer logged Header WriteHeader_calls Written].
  by rewrite Hw1.
Qed.

Lemma suppress_all_status (prev : Error) (cur : HTTPErr) :
  HTTPStatusCode (suppress_all (prev, cur)).2 = HTTPStatusCode cur.
Proof. unfold suppress_all. by rewrite suppress_spec. Qed.

(** X11.  [HTTPError] answers a value built by [RE] with the last
    integer argument as status (0 when there is none), and with 500 when
    an argument had an unknown type.  That is so when the value is
    status-only or its [Error] method returns; should that method
    panic, which it does when the chain of causes ends in a nil
    [*HTTPErr], [HTTPError] panics with it. *)
Theorem RE_then_HTTPError (args : list Part000.Arg) (s : State)
    (r : error) (s1 : State) :
  Part000.RE file line args s = Ok (r, s1) →
  match (if match r with
            | HTTPErrPtr e => Part000.StatusOnly e
            | _ => false
            end
         then Ok EmptyString else error_Error (heap s1) r) with
  | Ok _ =>
      ∃ s2, Part000.HTTPError r s1 = Ok (tt, s2)
            ∧ WriteHeader_calls (writer s2) =
                WriteHeader_calls (writer s)
                ++ [match spec_first_unrecognised args with
                    | Some _ => 500
                    | None => spec_last_int 0 args
                    end]
            ∧ heap s2 = heap s1
  | Panic msg => Part000.HTTPError r s1 = Panic msg
  end.
Proof.
  intros Hrun. apply RE_inv in Hrun as (Hne & r0 & s1' & Hloop & Hr).
  pose proof (RE_loop_frame _ _ _ _ _ _ _ _ Hloop) as (_ & Hw & _).
  pose proof (RE_loop_unrecognised _ _ _ _ _ _ Hloop) as Hbad.
  destruct r0 as [err|cur].
  - destruct Hr as [-> ->].
    destruct (spec_first_unrecognised args) as [bad|];
      [injection Hbad as ->|by destruct Hbad].
    cbn. eexists. split; [reflexivity|].
    cbn [heap writer logged Header WriteHeader_calls Written].
    by rewrite Hw.
  - destruct (spec_first_unrecognised args) as [bad|]; [done|].
    destruct (RE_loop_last _ _ _ _ _ _ _ _ nil_error Hloop eq_refl
                (λ _, eq_refl)) as (Hst & _).
    cbn [zero_HTTPErr HTTPStatusCode] in Hst.
    assert (∃ e, r = HTTPErrPtr e ∧ HTTPStatusCode e = HTTPStatusCode cur
                 ∧ writer s1 = writer s) as (e & -> & He & Hw1).
    { destruct (HTTPErr_Err cur) as [|m|p|h|h| |t];
        try (destruct Hr as [-> ->]; by eexists).
      destruct Hr as (prev & _ & -> & ->). eexists.
      split; [done|]. split; [apply suppress_all_status|done]. }
    rewrite HTTPError_hError.
    destruct (Part000.StatusOnly e);
      [|destruct (error_Error (heap s1) (HTTPErrPtr e)) as [text|msg];
        [|done]];
      eexists; (split; [reflexivity|]);
      cbn [heap writer logged Header WriteHeader_calls Written];
      by rewrite Hw1, He, Hst.
Qed.

(** X12.  When the value [RE] returns has an [*Error] as cause, that
    cause is a copy made by the call: its StripError flag is set, its own
    cause is a plain error holding the stripped text, and no field
    repeats the outer value: its Kind is Other, or differs from an outer
    Kind that is not Other, and likewise its Code and its Param.  The
    copy is that of the last error argument, an [*Error] followed by
    status, Kind, Code and Param arguments only: it sits at the address
    allocated when the loop reached that argument, the stripped text is
    what [StripStack] gave for the copy of the argument's struct [v] in
    the heap the loop had reached, its location is that of [v], and
    each of its Kind, Code and Param is that of [v], or the zero value
    when the field equals the last argument of its kind or that argument
    is the zero value or missing. *)
Theorem RE_cause_is_stripped_copy (args : list Part000.Arg) (s : State)
    (e : HTTPErr) (s' : State) (p : loc) :
  Part000.RE file line args s = Ok (HTTPErrPtr e, s') →
  HTTPErr_Err e = ErrorPtr p →
  ∃ prev' sub,
    heap s' !! p = Some prev'
    ∧ (p ∉ dom (heap s))
    ∧ StripError prev' = true
    ∧ Error_Err prev' = errorString sub
    ∧ (Error_Kind prev' = Other
       ∨ (HTTPErr_Kind e ≠ Other ∧ Error_Kind prev' ≠ HTTPErr_Kind e))
    ∧ (Error_Code prev' = EmptyString
       ∨ (HTTPErr_Code e ≠ EmptyString
          ∧ Error_Code prev' ≠ HTTPErr_Code e))
    ∧ (Error_Param prev' = EmptyString
       ∨ (HTTPErr_Param e ≠ EmptyString
          ∧ Error_Param prev' ≠ HTTPErr_Param e))
    ∧ ∃ pre a post e0 s0 v,
        args = pre ++ Part000.AError (ErrorPtr a) :: post
        ∧ setters_only post = true
        ∧ Part000.RE_loop file line args pre zero_HTTPErr s
          = Ok (inr e0, s0)
        ∧ (∀ l x, heap s !! l = Some x → heap s0 !! l = Some x)
        ∧ heap s0 !! a = Some v
        ∧ p = new_loc (heap s0)
        ∧ Part000.StripStack (ErrorPtr p)
            (with_heap (<[p := v]> (heap s0)) s0)
          = Ok (errorString sub, with_heap (<[p := v]> (heap s0)) s0)
        ∧ prev' = suppressed_copy (spec_last_Kind Other args)
                    (spec_last_Param EmptyString args)
                    (spec_last_Code EmptyString args) sub v
        ∧ heap s' = <[p := prev']> (heap s0).
Proof.
  intros Hrun Hp.
  destruct (RE_inv _ _ _ _ Hrun) as (Hne & r0 & s1 & Hloop & Hr).
  pose proof (RE_loop_unrecognised _ _ _ _ _ _ Hloop) as Hbad.
  destruct r0 as [err|cur].
  { destruct Hr as [<- ->].
    destruct (spec_first_unrecognised args) as [bad|];
      [by injection Hbad|by destruct Hbad]. }
  destruct (HTTPErr_Err cur) as [|m|q|h|h| |t] eqn:Hq;
    try (destruct Hr as [[= <-] ->]; by rewrite Hq in Hp).
  clear Hr Hbad.
  destruct (RE_of_loop_cause _ _ _ _ _ _ _ Hloop Hq)
    as (pre & a & post & e0 & s0 & v & sub & Hsplit & Hpost & Hpre & Ha
        & Hnew & Hslice & Hs1 & Hre).
  rewrite Hre in Hrun. injection Hrun as <- <-.
  cbn [HTTPErr_Err] in Hp. injection Hp as <-.
  destruct (RE_loop_frame _ _ _ _ _ _ _ _ Hpre) as (Hf & _ & _).
  eexists _, sub. cbn [heap].
  split; [by rewrite lookup_insert_eq|].
  split.
  { intros Hin. apply elem_of_dom in Hin as [x Hx].
    apply Hf in Hx. apply (new_loc_fresh (heap s0)).
    rewrite <- Hnew. apply elem_of_dom. by exists x. }
  cbn [Error_Kind Error_Param Error_Code Error_Err StripError
       suppressed_copy HTTPErr_Kind HTTPErr_Code HTTPErr_Param].
  split; [done|]. split; [done|].
  split; [|split; [|split]].
  1-3: repeat case_decide; try (by left); right; split; try done;
       intuition congruence.
  exists pre, a, post, e0, s0, v.
  repeat split; try done.
  unfold Part000.StripStack, with_heap. run_monad. run_heap.
  cbn [heap]. by rewrite Hslice.
Qed.

(** X13.  With arguments of recognised types, [RE] logs exactly one
    event for each [*Error] argument, each with the message
    [Response Error (RE)], and nothing else. *)
Theorem RE_logs_each_cause_once (args : list Part000.Arg) (s : State)
    (r : error) (s' : State) :
  forallb recognised args = true →
  Part000.RE file line args s = Ok (r, s') →
  ∃ evs, logged s' = logged s ++ evs
         ∧ length evs = count_ErrorPtr args
         ∧ Forall (λ ev, Event_Msg ev = "Response Error (RE)") evs.
Proof.
  intros Hrec Hrun. apply RE_inv in Hrun as (Hne & r0 & s1 & Hloop & Hr).
  destruct (RE_loop_recognised _ _ _ _ _ _ _ _ Hrec Hloop) as [cur ->].
  apply RE_loop_log in Hloop as (evs & Hlog & Hlen & Hall).
  exists evs. split; [|done].
  destruct (HTTPErr_Err cur) as [|m|p|h|h| |t];
    try (by destruct Hr as [_ ->]).
  by destruct Hr as (prev & _ & _ & ->).
Qed.

(** The loop never allocates at the nil address. *)
Lemma RE_loop_nil_free (args rest : list Part000.Arg) :
  ∀ (e : HTTPErr) (s : State) (r : error + HTTPErr) (s' : State),
    Part000.RE_loop file line args rest e s = Ok (r, s') →
    heap s !! nil_loc = None → heap s' !! nil_loc = None.
Proof.
  induction rest as [|arg rest IH]; intros e s r s' Hrun Hnil.
  - cbn in Hrun. by injection Hrun as _ <-.
  - destruct arg as [n|k|c|c|q|err|t v].
    1-5: cbn [Part000.RE_loop] in Hrun; by apply IH in Hrun.
    + destruct err as [|msg|a|h|h| |t].
      3: { rewrite RE_loop_ErrorPtr in Hrun.
           destruct (heap s !! a) as [v|]; [|done]. cbv zeta in Hrun.
           destruct (slice_from _ _) as [sub|msg]; [|done].
           apply IH in Hrun; [done|]. cbn [heap].
           rewrite lookup_insert_ne; [done|]. apply new_loc_not_nil. }
      1: { cbn in Hrun. by injection Hrun as _ <-. }
      all: cbn [Part000.RE_loop] in Hrun; by apply IH in Hrun.
    + cbn in Hrun. by injection Hrun as _ <-.
Qed.

(** X15.  [RE] dereferences each [*Error] argument to copy it, so a nil
    [*Error] among the arguments makes it panic: when the arguments
    before it are of recognised types and nothing is stored at the nil
    address, the call panics, whatever follows. *)
Theorem RE_nil_Error_argument_panics (pre post : list Part000.Arg)
    (s : State) :
  heap s !! nil_loc = None →
  forallb recognised pre = true →
  ∃ msg,
    Part000.RE file line
      (pre ++ Part000.AError (ErrorPtr nil_loc) :: post) s = Panic msg.
Proof.
  intros Hnil Hrec.
  set (args := pre ++ Part000.AError (ErrorPtr nil_loc) :: post).
  assert (∃ msg, Part000.RE_loop file line args args zero_HTTPErr s
                 = Panic msg) as [msg Hloop].
  { unfold args at 2. rewrite RE_loop_app.
    destruct (Part000.RE_loop file line args pre zero_HTTPErr s)
      as [[[err|e1] s1]|msg] eqn:Hpre; [| |by eexists].
    - by destruct (RE_loop_recognised _ _ _ _ _ _ _ _ Hrec Hpre).
    - rewrite RE_loop_ErrorPtr.
      rewrite (RE_loop_nil_free _ _ _ _ _ _ Hpre Hnil). by eexists. }
  exists msg. unfold Part000.RE.
  destruct args as [|a0 args0] eqn:Hargs;
    [by destruct pre|].
  run_monad. fold zero_HTTPErr. by rewrite Hloop.
Qed.

End REMore.

(** X14.  Suppression is idempotent: applied to its own result, the
    three steps that follow the loop of [RE] change nothing more. *)
Theorem suppress_all_idempotent (prev : Error) (e : HTTPErr) :
  suppress_all (suppress_all (prev, e)) = suppress_all (prev, e).
Proof.
  unfold suppress_all. rewrite (suppress_spec prev e), suppress_spec.
  cbn [Error_Kind Error_Param Error_Code Error_Err StripError Error_Location
       HTTPStatusCode HTTPErr_Kind HTTPErr_Param HTTPErr_Code HTTPErr_Err].
  f_equal; f_equal;
    repeat case_decide; try done; exfalso; intuition congruence.
Qed.

(** ** The further properties on concrete values *)

(** A float among the arguments: the unknown-type error, whatever comes
    after it. *)
Lemma RE_result_witness :
  ∃ s', Part000.RE (H := SpecModel.decls) "main.go" 7
          [Part000.AKind Invalid; Part000.AOther "float64" "3.5";
           Part000.AInt 404] initial
        = Ok (errorString "unknown type float64, value 3.5 in error call", s')
        ∧ writer s' = writer initial.
Proof.
  assert (∃ r s', Part000.RE (H := SpecModel.decls) "main.go" 7
                    [Part000.AKind Invalid; Part000.AOther "float64" "3.5";
                     Part000.AInt 404] initial = Ok (r, s'))
    as (r & s' & Hrun) by (vm_compute; eexists; eexists; reflexivity).
  destruct (RE_result (H := SpecModel.decls) _ _ _ _ _ _ Hrun)
    as (_ & _ & Hw & Hr).
  cbn in Hr. subst r. exists s'. split; [exact Hrun|exact Hw].
Defined.

(** [RE(404, NotExist)] through the two translators: 500 from one, 404
    from the other. *)
Lemma RE_then_HTTPErrorResponse_witness :
  ∃ r s1 s2,
    Part000.RE (H := SpecModel.decls) "main.go" 7
      [Part000.AInt 404; Part000.AKind NotExist] initial = Ok (r, s1)
    ∧ HTTPErrors.HTTPErrorResponse (H := SpecModel.decls) r s1 = Ok (tt, s2)
    ∧ WriteHeader_calls (writer s2) = [500].
Proof.
  assert (Part000.RE (H := SpecModel.decls) "main.go" 7
            [Part000.AInt 404; Part000.AKind NotExist] initial
          = Ok (HTTPErrPtr
                  (Build_HTTPErr 404 NotExist EmptyString EmptyString
                     nil_error), initial))
    as Hrun by reflexivity.
  destruct (RE_then_HTTPErrorResponse (H := SpecModel.decls) _ _ _ _ _ _ Hrun)
    as (s2 & Hsend & Hcalls & _).
  eexists _, _, s2. split; [exact Hrun|]. split; [exact Hsend|exact Hcalls].
Defined.

(** The same value through [HTTPError]. *)
Lemma RE_then_HTTPError_witness :
  ∃ r s1 s2,
    Part000.RE (H := SpecModel.decls) "main.go" 7
      [Part000.AInt 404; Part000.AKind NotExist] initial = Ok (r, s1)
    ∧ Part000.HTTPError (H := SpecModel.decls) r s1 = Ok (tt, s2)
    ∧ WriteHeader_calls (writer s2) = [404].
Proof.
  assert (Part000.RE (H := SpecModel.decls) "main.go" 7
            [Part000.AInt 404; Part000.AKind NotExist] initial
          = Ok (HTTPErrPtr
                  (Build_HTTPErr 404 NotExist EmptyString EmptyString
                     nil_error), initial))
    as Hrun by reflexivity.
  destruct (RE_then_HTTPError (H := SpecModel.decls) _ _ _ _ _ _ Hrun)
    as (s2 & Hsend & Hcalls & _).
  eexists _, _, s2. split; [exact Hrun|]. split; [exact Hsend|exact Hcalls].
Defined.

(** [RE(Validation, cause)]: the attached cause is flagged, holds the
    stripped message and the location of the argument, and has its Kind
    cleared. *)
Lemma RE_cause_is_stripped_copy_witness :
  ∃ e s' prev',
    Part000.RE (H := SpecModel.decls) "main.go" 7
      [Part000.AKind Validation; Part000.AError (ErrorPtr 1%N)]
      (holding validation_cause) = Ok (HTTPErrPtr e, s')
    ∧ HTTPErr_Err e = ErrorPtr 2%N
    ∧ heap s' !! 2%N = Some prev'
    ∧ StripError prev' = true
    ∧ ∃ sub, Error_Err prev' = errorString sub.
Proof.
  assert (∃ e s', Part000.RE (H := SpecModel.decls) "main.go" 7
                    [Part000.AKind Validation;
                     Part000.AError (ErrorPtr 1%N)]
                    (holding validation_cause) = Ok (HTTPErrPtr e, s')
                  ∧ HTTPErr_Err e = ErrorPtr 2%N)
    as (e & s' & Hrun & Hp)
    by (vm_compute; eexists; eexists; split; reflexivity).
  destruct (RE_cause_is_stripped_copy (H := SpecModel.decls) _ _ _ _ _ _ _
              Hrun Hp) as (prev' & sub & Hl & _ & Hflag & Herr & _).
  exists e, s', prev'.
  split; [exact Hrun|]. split; [exact Hp|]. split; [exact Hl|].
  split; [exact Hflag|]. exists sub. exact Herr.
Defined.

(** [RE(cause, nil)] with a nil [*Error] as second argument. *)
Lemma RE_nil_Error_argument_panics_witness :
  ∃ msg,
    Part000.RE (H := SpecModel.decls) "main.go" 7
      [Part000.AError (ErrorPtr 1%N); Part000.AError (ErrorPtr 0%N)]
      (holding database_cause) = Panic msg.
Proof.
  apply (RE_nil_Error_argument_panics (H := SpecModel.decls) "main.go" 7
           [Part000.AError (ErrorPtr 1%N)] [] (holding database_cause));
    reflexivity.
Defined.

(** The same cause handed over twice: two events. *)
Lemma RE_logs_each_cause_once_witness :
  ∃ r s',
    Part000.RE (H := SpecModel.decls) "main.go" 7
      [Part000.AError (ErrorPtr 1%N); Part000.AKind Invalid;
       Part000.AError (ErrorPtr 1%N)]
      (holding database_cause) = Ok (r, s')
    ∧ length (logged s') = 2%nat.
Proof.
  assert (∃ r s', Part000.RE (H := SpecModel.decls) "main.go" 7
                    [Part000.AError (ErrorPtr 1%N);
                     Part000.AKind Invalid;
                     Part000.AError (ErrorPtr 1%N)]
                    (holding database_cause) = Ok (r, s'))
    as (r & s' & Hrun) by (vm_compute; eexists; eexists; reflexivity).
  destruct (RE_logs_each_cause_once (H := SpecModel.decls) "main.go" 7
              [Part000.AError (ErrorPtr 1%N); Part000.AKind Invalid;
               Part000.AError (ErrorPtr 1%N)]
              (holding database_cause) r s' eq_refl Hrun)
    as (evs & Hlog & Hlen & _).
  exists r, s'. split; [exact Hrun|].
  rewrite Hlog, length_app, Hlen. reflexivity.
Defined.
